(** * su-exec: set user and group id and exec

    A shallow embedding of [scripts/agent/su-exec.c] and the properties of
    its identity resolution and privilege transition.

    Conventions.
    - A C string is a [string]: the bytes before the terminating NUL.
      A test [*p == '\0'] reads "the rest is the empty string".
    - [uid_t] and [gid_t] are unsigned 32-bit, [long] is 64-bit (Linux,
      LP64); ids are integers of [Z] with the conversion written out.
    - [strtol], [strchr] and [strtok] are written out as the C standard
      describes them, in the C locale.
    - The user and group databases and the kernel are a [World] of
      oracles.  Every call the program makes is recorded, in order, in a
      trace of [event]s; the environment is the state.
    - [malloc] and [setenv] are taken to succeed: the source does not look
      at their result.  A slot of a fresh block that was never written is
      [None].
    - The [while (1)] of line 136 is run for at most [fuel] rounds; a run
      that has not left the loop by then ends as [Spinning]. *)

From Stdlib Require Import ZArith Ascii String List Lia.
From stdpp Require Import gmap strings list.

Local Open Scope Z_scope.

(** ** Characters and C strings *)

Definition isspace (c : ascii) : bool :=
  let n := nat_of_ascii c in
  ((n =? 32) || ((9 <=? n) && (n <=? 13)))%nat.

Definition isdigit (c : ascii) : bool :=
  let n := nat_of_ascii c in ((48 <=? n) && (n <=? 57))%nat.

Definition digit_val (c : ascii) : Z := Z.of_nat (nat_of_ascii c) - 48.

Definition LONG_MAX : Z := 2 ^ 63 - 1.
Definition LONG_MIN : Z := - 2 ^ 63.

(** Conversion of a [long] to [uid_t] / [gid_t]. *)
Definition to_id (v : Z) : Z := v mod 2 ^ 32.

(** [strtol] saturates at the ends of [long]. *)
Definition clamp_long (v : Z) : Z :=
  if v <? LONG_MIN then LONG_MIN
  else if LONG_MAX <? v then LONG_MAX
  else v.

Fixpoint skip_space (s : string) : string :=
  match s with
  | String c r => if isspace c then skip_space r else s
  | EmptyString => s
  end.

Fixpoint scan_digits (acc : Z) (s : string) : Z * string :=
  match s with
  | String c r =>
      if isdigit c then scan_digits (acc * 10 + digit_val c) r else (acc, s)
  | EmptyString => (acc, s)
  end.

(** [strtol(nptr, &end, 10)]: the value and the text [end] points to.
    White space, then an optional sign, then digits; with no digit there
    is no conversion, the value is 0 and [end] is [nptr]. *)
Definition strtol (nptr : string) : Z * string :=
  let s := skip_space nptr in
  let '(neg, s) :=
    match s with
    | String c r =>
        if Ascii.eqb c "-" then (true, r)
        else if Ascii.eqb c "+" then (false, r)
        else (false, s)
    | EmptyString => (false, s)
    end in
  match s with
  | String c _ =>
      if isdigit c then
        let '(v, rest) := scan_digits 0 s in
        (clamp_long (if neg then - v else v), rest)
      else (0, nptr)
  | EmptyString => (0, nptr)
  end.

(** [strchr(s, c)]: offset of the first [c] in [s].  The terminating
    NUL counts as part of the string: for [c = '\0'] the answer is the
    end of the string. *)
Fixpoint strchr (s : string) (c : ascii) : option nat :=
  match s with
  | String a r =>
      if Ascii.eqb a c then Some O else option_map S (strchr r c)
  | EmptyString => if Ascii.eqb c Ascii.zero then Some O else None
  end.

Fixpoint str_take (n : nat) (s : string) : string :=
  match n, s with
  | S n, String a r => String a (str_take n r)
  | _, _ => EmptyString
  end.

Fixpoint str_drop (n : nat) (s : string) : string :=
  match n, s with
  | S n, String _ r => str_drop n r
  | _, _ => s
  end.

(** Lines 62-65: [user = argv[1]; group = strchr(user, ':');
    if (group) *group++ = '\0';].  The NUL written at the colon ends
    [user] there, and [group] is the text after it. *)
Definition split_spec (arg : string) : string * option string :=
  match strchr arg ":" with
  | Some i => (str_take i arg, Some (str_drop (S i) arg))
  | None => (arg, None)
  end.

(** Lines 23-32. *)
Fixpoint str_occurrences (str : string) (tok : ascii) : nat :=
  match str with
  | String c r =>
      ((if Ascii.eqb c tok then 1 else 0) + str_occurrences r tok)%nat
  | EmptyString => O
  end.

(** [strtok] with the one delimiter [d]: skip delimiters, stop at the
    end, else cut the token at the next delimiter.  The second component
    is the saved position for the next call. *)
Fixpoint skip_delim (d : ascii) (s : string) : string :=
  match s with
  | String c r => if Ascii.eqb c d then skip_delim d r else s
  | EmptyString => s
  end.

Fixpoint span_token (d : ascii) (s : string) : string * string :=
  match s with
  | String c r =>
      if Ascii.eqb c d then (EmptyString, r)
      else let '(t, save) := span_token d r in (String c t, save)
  | EmptyString => (EmptyString, EmptyString)
  end.

Definition strtok (d : ascii) (s : string) : option (string * string) :=
  match skip_delim d s with
  | EmptyString => None
  | s' => Some (span_token d s')
  end.

(** The tokens of the calls [strtok(NULL, d)] repeated until NULL.  Each
    call moves the saved position forward, so [String.length s] calls
    are enough ([tokens_unfold]). *)
Fixpoint strtok_seq (n : nat) (d : ascii) (s : string) : list string :=
  match n with
  | O => []
  | S n =>
      match strtok d s with
      | None => []
      | Some (t, save) => t :: strtok_seq n d save
      end
  end.

Definition tokens (d : ascii) (s : string) : list string :=
  strtok_seq (String.length s) d s.

(** ** The system *)

Record passwd := {
  pw_name : string;
  pw_uid : Z;
  pw_gid : Z;
  pw_dir : string
}.

(** A slot of a [gid_t] array; [None] was never written. *)
Definition slot := option Z.

Record World := {
  w_getuid : Z;
  w_getgid : Z;
  w_getpwnam : string -> option passwd;
  w_getpwuid : Z -> option passwd;
  (** [gr_gid] of the group of that name *)
  w_getgrnam : string -> option Z;
  (** the [k]-th call [getgrouplist(user, group, glist, &ngroups)]: the
      return value, [ngroups] and the buffer after the call *)
  w_getgrouplist : nat -> string -> Z -> list slot -> Z -> Z * Z * list slot;
  (** does the [realloc] of round [k], to that many slots, succeed; the
      one of round 0 is given NULL, a later one the block of the round
      before *)
  w_realloc_ok : nat -> Z -> bool;
  w_setgroups_ok : Z -> list slot -> bool;
  w_setgid_ok : Z -> bool;
  w_setuid_ok : Z -> bool;
  w_execvp_ok : string -> list string -> bool;
  w_environ : gmap string string
}.

Inductive fmt_arg :=
| ArgNone
| ArgStr (s : string)
| ArgInt (n : Z).

Inductive event :=
| Getuid
| Getgid
| Getpwnam (name : string)
| Getpwuid (uid : Z)
| Getgrnam (name : string)
| Getgrouplist (user : string) (group : Z) (ngroups : Z)
| Setenv (name value : string)
| Setgroups (size : Z) (list : list slot)
| Setgid (gid : Z)
| Setuid (uid : Z)
| Execvp (file : string) (argv : list string)
| Stdout (text : string)
| Stderr (fmt : string) (arg : fmt_arg).

(** How the process ends.  [Crashed]: a NULL pointer is read or a write
    falls outside its block.  [Spinning]: the [while (1)] of line 136 has
    not left after as many rounds as were allowed. *)
Inductive outcome :=
| Exited (status : Z)
| Replaced (file : string) (argv : list string) (env : gmap string string)
| Crashed
| Spinning.

(** ** The monad: environment as state, trace as output, early stop *)

Inductive result (A : Type) :=
| Next (a : A) (env : gmap string string)
| Stop (o : outcome).
Arguments Next {A} a env.
Arguments Stop {A} o.

Definition M (A : Type) : Type :=
  gmap string string -> list event * result A.

Definition ret {A} (a : A) : M A := fun env => ([], Next a env).

Definition bind {A B} (m : M A) (f : A -> M B) : M B :=
  fun env =>
    match m env with
    | (t, Next a env') => let '(t', r) := f a env' in (t ++ t', r)
    | (t, Stop o) => (t, Stop o)
    end.

Definition emit (e : event) : M unit := fun env => ([e], Next tt env).

Definition stop {A} (o : outcome) : M A := fun _ => ([], Stop o).

Declare Scope su_scope.
Delimit Scope su_scope with su.
Notation "x <- m ;; k" := (bind m (fun x => k))
  (at level 100, m at next level, right associativity) : su_scope.
Notation "'let*' p := m 'in' k" := (bind m (fun x => let 'p := x in k))
  (at level 10, p pattern, m at level 100, k at level 200) : su_scope.
Notation "m ;;; k" := (bind m (fun _ => k))
  (at level 100, right associativity) : su_scope.
Local Open Scope su_scope.

Section Program.

Variable w : World.

(** *** Library and system calls *)

Definition exit {A} (status : Z) : M A := stop (Exited status).

(** [err(status, fmt, ...)]: a message on standard error, then exit. *)
Definition err {A} (status : Z) (fmt : string) (arg : fmt_arg) : M A :=
  emit (Stderr fmt arg) ;;; exit status.

Definition printf (text : string) : M unit := emit (Stdout text).

Definition getuid : M Z := emit Getuid ;;; ret (w_getuid w).
Definition getgid : M Z := emit Getgid ;;; ret (w_getgid w).

Definition getpwnam (name : string) : M (option passwd) :=
  emit (Getpwnam name) ;;; ret (w_getpwnam w name).

Definition getpwuid (uid : Z) : M (option passwd) :=
  emit (Getpwuid uid) ;;; ret (w_getpwuid w uid).

Definition getgrnam (name : string) : M (option Z) :=
  emit (Getgrnam name) ;;; ret (w_getgrnam w name).

(** [setenv(name, value, 1)] *)
Definition setenv (name value : string) : M unit :=
  fun env => ([Setenv name value], Next tt (<[name := value]> env)).

(** The three calls answer whether they succeeded ([>= 0]). *)
Definition setgroups (size : Z) (l : list slot) : M bool :=
  emit (Setgroups size l) ;;; ret (w_setgroups_ok w size l).

Definition setgid (gid : Z) : M bool :=
  emit (Setgid gid) ;;; ret (w_setgid_ok w gid).

Definition setuid (uid : Z) : M bool :=
  emit (Setuid uid) ;;; ret (w_setuid_ok w uid).

(** [execvp] returns only when it failed. *)
Definition execvp (file : string) (argv : list string) : M unit :=
  fun env =>
    ([Execvp file argv],
     if w_execvp_ok w file argv then Stop (Replaced file argv env)
     else Next tt env).

(** *** The program *)

(** Lines 17-21. *)
Definition usage_text (argv0 : string) : string :=
  "Usage: " +:+ argv0 +:+ " user-spec command [args]
".

Definition usage {A} (argv0 : string) (exitcode : Z) : M A :=
  printf (usage_text argv0) ;;; exit exitcode.

(** Lines 34-48. *)
Definition get_gid (ref : string) : M Z :=
  let '(ngid, e) := strtol ref in
  match e with
  | EmptyString => ret (to_id ngid)
  | _ =>
      gr <- getgrnam ref ;;
      match gr with
      | None => err 1 "getgrnam(%s)" (ArgStr ref)
      | Some g => ret g
      end
  end.

(** Lines 69-90: from [user] and the caller's ids to [uid], [gid], [pw]. *)
Definition main_resolve_user (user : string) (uid gid : Z)
  : M (Z * Z * option passwd) :=
  let* (uid, pw) :=
    match user with
    | EmptyString => ret (uid, None)
    | _ =>
        let '(nuid, e) := strtol user in
        match e with
        | EmptyString => ret (to_id nuid, None)
        | _ =>
            pw <- getpwnam user ;;
            match pw with
            | None => err 1 "getpwnam(%s)" (ArgStr user)
            | Some p => ret (uid, Some p)
            end
        end
    end in
  pw <- match pw with
        | None => getpwuid uid
        | Some p => ret (Some p)
        end ;;
  match pw with
  | Some p => ret (pw_uid p, pw_gid p, pw)
  | None => ret (uid, gid, pw)
  end.

(** Lines 119-125: the tokens after the first go to [gidlist + i]. *)
Fixpoint main_fill_gidlist (toks : list string) (i : nat)
  (gidlist : list slot) : M (list slot) :=
  match toks with
  | [] => ret gidlist
  | token :: toks' =>
      let i := S i in
      g <- get_gid token ;;
      if (i <? length gidlist)%nat
      then main_fill_gidlist toks' i (<[i := Some g]> gidlist)
      else stop Crashed
  end.

(** Lines 94-129: an explicit group.  Answers the new [gid] and [pw]. *)
Definition main_explicit_groups (group : option string) (gid : Z)
  (pw : option passwd) : M (Z * option passwd) :=
  match group with
  | Some (String _ _ as group) =>
      let group_cnt := (str_occurrences group "," + 1)%nat in
      if (group_cnt =? 1)%nat then
        gid <- get_gid group ;;
        ok <- setgroups 1 [Some gid] ;;
        if ok then ret (gid, None)
        else err 1 "setgroups(%i)" (ArgInt gid)
      else
        let gidlist : list slot := replicate group_cnt None in
        match strtok "," group with
        | None => stop Crashed
        | Some (token, save) =>
            gid <- get_gid token ;;
            let gidlist := <[O := Some gid]> gidlist in
            gidlist <- main_fill_gidlist (tokens "," save) O gidlist ;;
            ok <- setgroups (Z.of_nat group_cnt) gidlist ;;
            if ok then ret (gid, None)
            else err 1 "setgroups()" ArgNone
        end
  | _ => ret (gid, pw)
  end.

(** [realloc(glist, n * sizeof(gid_t))]: the old slots that fit, then
    fresh ones. *)
Definition resize (glist : list slot) (n : Z) : list slot :=
  let n := Z.to_nat n in
  take n glist ++ replicate (n - length glist)%nat None.

(** Lines 136-150; [k] counts the calls of [getgrouplist]. *)
Fixpoint main_grouplist_loop (fuel k : nat) (name : string) (gid : Z)
  (glist : list slot) (ngroups : Z) : M unit :=
  match fuel with
  | O => stop Spinning
  | S fuel =>
      emit (Getgrouplist name gid ngroups) ;;;
      let '(r, ngroups, glist) := w_getgrouplist w k name gid glist ngroups in
      if 0 <=? r then
        ok <- setgroups ngroups glist ;;
        if ok then ret tt else err 1 "setgroups" ArgNone
      else
        if w_realloc_ok w k ngroups
        then main_grouplist_loop fuel (S k) name gid (resize glist ngroups)
               ngroups
        else err 1 "malloc" ArgNone
  end.

(** Lines 131-151. *)
Definition main_grouplist (fuel : nat) (pw : option passwd) (gid : Z)
  : M unit :=
  match pw with
  | Some p => main_grouplist_loop fuel O (pw_name p) gid [] 0
  | None => ret tt
  end.

(** Lines 153-160. *)
Definition main_transition (uid gid : Z) (cmd : string)
  (cmdargv : list string) : M unit :=
  ok <- setgid gid ;;
  if negb ok then err 1 "setgid(%i)" (ArgInt gid) else
  ok <- setuid uid ;;
  if negb ok then err 1 "setuid(%i)" (ArgInt uid) else
  execvp cmd cmdargv ;;;
  err 1 "%s" (ArgStr cmd).

(** Lines 50-163.  [args] are [argv[1]], [argv[2]], ...: [argc] is one
    more than their number. *)
Definition main (fuel : nat) (argv0 : string) (args : list string)
  : M unit :=
  uid <- getuid ;;
  gid <- getgid ;;
  match args with
  | spec :: cmd :: rest =>
      let '(user, group) := split_spec spec in
      let* (uid, gid, pw) := main_resolve_user user uid gid in
      setenv "HOME" (match pw with Some p => pw_dir p | None => "/" end) ;;;
      let* (gid, pw) := main_explicit_groups group gid pw in
      main_grouplist fuel pw gid ;;;
      main_transition uid gid cmd (cmd :: rest)
  | _ => usage argv0 0
  end.

(** The trace and the end of a run started in the world's environment. *)
Definition run (fuel : nat) (argv0 : string) (args : list string)
  : list event * outcome :=
  match main fuel argv0 args (w_environ w) with
  | (t, Stop o) => (t, o)
  | (t, Next _ _) => (t, Exited 1)
  end.

End Program.

(** ** Reading a trace *)

(** Events that leave the credentials, the environment and the process
    image alone and are not the group-list query. *)
Definition quiet (e : event) : bool :=
  match e with
  | Getuid | Getgid | Getpwnam _ | Getpwuid _ | Getgrnam _
  | Stdout _ | Stderr _ _ => true
  | _ => false
  end.

Definition noisy (e : event) : bool := negb (quiet e).

(** Queries of the user and group databases. *)
Definition is_lookup (e : event) : bool :=
  match e with
  | Getpwnam _ | Getpwuid _ | Getgrnam _ | Getgrouplist _ _ _ => true
  | _ => false
  end.

(** Changes of the identity of the process. *)
Definition is_idchange (e : event) : bool :=
  match e with
  | Setgroups _ _ | Setgid _ | Setuid _ => true
  | _ => false
  end.

Definition is_setenv (e : event) : bool :=
  match e with Setenv _ _ => true | _ => false end.

Definition is_exec (e : event) : bool :=
  match e with Execvp _ _ => true | _ => false end.

Definition is_getgrouplist (e : event) : bool :=
  match e with Getgrouplist _ _ _ => true | _ => false end.

(** ** What the text of a token is *)

Fixpoint str_forall (p : ascii -> bool) (s : string) : bool :=
  match s with
  | String c r => p c && str_forall p r
  | EmptyString => true
  end.

(** The value of a string of decimal digits, by position. *)
Fixpoint decimal (s : string) : Z :=
  match s with
  | String c r => digit_val c * 10 ^ Z.of_nat (String.length r) + decimal r
  | EmptyString => 0
  end.

(** The gid a group token stands for: lines 34-48 without the trace. *)
Definition gid_of_token (w : World) (ref : string) : option Z :=
  match strtol ref with
  | (ngid, EmptyString) => Some (to_id ngid)
  | _ => w_getgrnam w ref
  end.

(** [HOME] for the record that was found, or not. *)
Definition home_of (pw : option passwd) : string :=
  match pw with Some p => pw_dir p | None => "/" end.

(** ** Definitions used by the statements *)

(** The text [strtol] converts in full: white space, an optional sign,
    then digits and nothing else. *)
Definition integer_text (s : string) (neg : bool) (ds : string) : Prop :=
  exists ws sg,
    s = ws +:+ sg +:+ ds /\
    str_forall isspace ws = true /\
    (sg = (if neg then "-" else "")%string \/ (neg = false /\ sg = "+"%string)) /\
    ds <> EmptyString /\ str_forall isdigit ds = true.

Fixpoint str_last (s : string) : option ascii :=
  match s with
  | String c EmptyString => Some c
  | String _ r => str_last r
  | EmptyString => None
  end.

(** Every slot of [l] that was written holds the gid of the token at
    that position. *)
Definition from_tokens (w : World) (toks : list string) (l : list slot)
  : Prop :=
  forall (j : nat) (g : Z),
    l !! j = Some (Some g) ->
    exists tok, toks !! j = Some tok /\ gid_of_token w tok = Some g.

(** What the group phase (lines 94-151) puts in the trace, and the gid
    it hands to [setgid]; [None] when the process ended there. *)
Inductive group_phase (w : World)
  : option string -> Z -> option passwd -> list event -> option Z -> Prop :=
| gp_explicit_stop (g : string) (gid : Z) (pw : option passwd) :
    g <> EmptyString ->
    group_phase w (Some g) gid pw [] None
| gp_explicit (g : string) (gid : Z) (pw : option passwd) (l : list slot)
    (gid' : option Z) :
    g <> EmptyString ->
    from_tokens w (tokens "," g) l ->
    (forall x, gid' = Some x ->
       exists tok, head (tokens "," g) = Some tok /\
                   gid_of_token w tok = Some x) ->
    group_phase w (Some g) gid pw
      [Setgroups (Z.of_nat (str_occurrences g "," + 1)) l] gid'
| gp_inherit (group : option string) (gid : Z) :
    group = None \/ group = Some EmptyString ->
    group_phase w group gid None [] (Some gid)
| gp_derived_stop (group : option string) (gid : Z) (p : passwd)
    (q : list event) :
    group = None \/ group = Some EmptyString ->
    Forall (fun e => is_getgrouplist e = true) q ->
    group_phase w group gid (Some p) q None
| gp_derived (group : option string) (gid : Z) (p : passwd)
    (q : list event) (n : Z) (l : list slot) (gid' : option Z) :
    group = None \/ group = Some EmptyString ->
    Forall (fun e => is_getgrouplist e = true) q ->
    gid' = None \/ gid' = Some gid ->
    group_phase w group gid (Some p) (q ++ [Setgroups n l]) gid'.

(** What lines 153-160 put in the trace and how the run ends, from the
    gid the group phase handed over. *)
Definition transition_phase (uid : Z) (cmd : string) (rest : list string)
  (env : gmap string string) (gid' : option Z) (T : list event)
  (out : outcome) : Prop :=
  match gid' with
  | None => T = [] /\ (out = Exited 1 \/ out = Crashed \/ out = Spinning)
  | Some g =>
      (T = [Setgid g] /\ out = Exited 1) \/
      (T = [Setgid g; Setuid uid] /\ out = Exited 1) \/
      (T = [Setgid g; Setuid uid; Execvp cmd (cmd :: rest)] /\
       (out = Exited 1 \/ out = Replaced cmd (cmd :: rest) env))
  end.

(** A small system: root with groups 0 and 10, a group "staff", and a
    caller that runs as uid 0 with gid 1000. *)
Definition root_pw : passwd :=
  {| pw_name := "root"; pw_uid := 0; pw_gid := 0; pw_dir := "/root" |}.

Definition w_demo : World :=
  {| w_getuid := 0;
     w_getgid := 1000;
     w_getpwnam := fun n => if String.eqb n "root" then Some root_pw else None;
     w_getpwuid := fun u => if u =? 0 then Some root_pw else None;
     w_getgrnam := fun n => if String.eqb n "staff" then Some 50 else None;
     w_getgrouplist := fun _ _ g buf n =>
       if 2 <=? n then (2, 2, [Some g; Some 10] ++ drop 2 buf)
       else (-1, 2, take (Z.to_nat n) [Some g; Some 10] ++ drop (Z.to_nat n) buf);
     w_realloc_ok := fun _ _ => true;
     w_setgroups_ok := fun _ _ => true;
     w_setgid_ok := fun _ => true;
     w_setuid_ok := fun _ => true;
     w_execvp_ok := fun _ _ => true;
     w_environ := {[ "HOME" := "/old"; "PATH" := "/bin" ]}%string |}.

Definition is_setenv_or_exec (e : event) : bool := is_setenv e || is_exec e.

(** A group-list query that answers as documented: it always reports the
    number of groups of the user, and fails exactly when the buffer has
    fewer slots than that; when it succeeds the buffer starts with the
    groups. *)
Definition consistent_grouplist (w : World) (name : string) (gid : Z)
  (members : list Z) : Prop :=
  forall (k : nat) (buf : list slot) (n : Z),
    let '(r, n', buf') := w_getgrouplist w k name gid buf n in
    n' = Z.of_nat (length members) /\
    if Z.of_nat (length members) <=? n
    then 0 <= r /\ take (length members) buf' = Some <$> members
    else r < 0.

(** The query writes inside the block it is given: told a capacity
    that the block has, it leaves the block with the slots it had. *)
Definition grouplist_in_block (w : World) (name : string) (gid : Z) : Prop :=
  forall (k : nat) (buf : list slot) (n : Z),
    n <= Z.of_nat (length buf) ->
    length (snd (w_getgrouplist w k name gid buf n)) = length buf.

(** A system on which the query keeps failing and keeps reporting one
    group, also when the buffer has the slot for it.  [realloc] answers
    as glibc does: given NULL it is [malloc]; given a block, it frees it
    and answers NULL for a size of zero, and answers a block for any
    other size. *)
Definition w_spin : World :=
  {| w_getuid := 0;
     w_getgid := 0;
     w_getpwnam := fun n => if String.eqb n "root" then Some root_pw else None;
     w_getpwuid := fun u => if u =? 0 then Some root_pw else None;
     w_getgrnam := fun _ => None;
     w_getgrouplist := fun _ _ _ buf _ => (-1, 1, buf);
     w_realloc_ok := fun k n => (k =? 0)%nat || (0 <? n);
     w_setgroups_ok := fun _ _ => true;
     w_setgid_ok := fun _ => true;
     w_setuid_ok := fun _ => true;
     w_execvp_ok := fun _ _ => true;
     w_environ := ∅ |}.

(** The calls of lines 153-160 that change the identity or the image,
    as far as the answers of the kernel let the run go. *)
Definition transition_trace (w : World) (uid gid : Z) (cmd : string)
  (argv : list string) : list event :=
  Setgid gid ::
    (if w_setgid_ok w gid
     then Setuid uid ::
            (if w_setuid_ok w uid then [Execvp cmd argv] else [])
     else []).

(** The end of a run that reached line 153. *)
Definition transition_outcome (w : World) (uid gid : Z) (cmd : string)
  (argv : list string) (env : gmap string string) : outcome :=
  if w_setgid_ok w gid && w_setuid_ok w uid && w_execvp_ok w cmd argv
  then Replaced cmd argv env
  else Exited 1.

(** How lines 94-151 end: they hand a gid on to [setgid], or the run
    ends there. *)
Inductive group_end :=
| Handed (gid : Z)
| Ended (o : outcome).

(** Queries of the group list, all for the same user and gid. *)
Definition queries_for (name : string) (gid : Z) (q : list event) : Prop :=
  Forall (fun e => exists n, e = Getgrouplist name gid n) q.

(** The cases of lines 94-151, with what each puts in the trace (the
    calls that are not [quiet]) and the answer of the kernel or of the
    databases that decides it. *)
Inductive group_verdict (w : World) (group : option string) (gid : Z)
  (pw : option passwd) : list event -> group_end -> Prop :=
| gv_inherit :
    group = None \/ group = Some EmptyString ->
    pw = None ->
    group_verdict w group gid pw [] (Handed gid)
| gv_derived (p : passwd) (q : list event) (n : Z) (l : list slot) :
    group = None \/ group = Some EmptyString ->
    pw = Some p -> queries_for (pw_name p) gid q ->
    w_setgroups_ok w n l = true ->
    group_verdict w group gid pw (q ++ [Setgroups n l]) (Handed gid)
| gv_derived_rejected (p : passwd) (q : list event) (n : Z) (l : list slot) :
    group = None \/ group = Some EmptyString ->
    pw = Some p -> queries_for (pw_name p) gid q ->
    w_setgroups_ok w n l = false ->
    group_verdict w group gid pw (q ++ [Setgroups n l]) (Ended (Exited 1))
| gv_derived_malloc (p : passwd) (q : list event) :
    group = None \/ group = Some EmptyString ->
    pw = Some p -> queries_for (pw_name p) gid q ->
    group_verdict w group gid pw q (Ended (Exited 1))
| gv_derived_spin (p : passwd) (q : list event) :
    group = None \/ group = Some EmptyString ->
    pw = Some p -> queries_for (pw_name p) gid q ->
    group_verdict w group gid pw q (Ended Spinning)
| gv_explicit (g : string) (l : list slot) (tok : string) (gid' : Z) :
    group = Some g -> g <> EmptyString ->
    Forall (fun t => gid_of_token w t <> None) (tokens "," g) ->
    head (tokens "," g) = Some tok -> gid_of_token w tok = Some gid' ->
    w_setgroups_ok w (Z.of_nat (str_occurrences g "," + 1)) l = true ->
    group_verdict w group gid pw
      [Setgroups (Z.of_nat (str_occurrences g "," + 1)) l] (Handed gid')
| gv_explicit_rejected (g : string) (l : list slot) (tok : string) :
    group = Some g -> g <> EmptyString ->
    Forall (fun t => gid_of_token w t <> None) (tokens "," g) ->
    head (tokens "," g) = Some tok ->
    w_setgroups_ok w (Z.of_nat (str_occurrences g "," + 1)) l = false ->
    group_verdict w group gid pw
      [Setgroups (Z.of_nat (str_occurrences g "," + 1)) l] (Ended (Exited 1))
| gv_explicit_unknown (g : string) (tok : string) :
    group = Some g -> g <> EmptyString ->
    In tok (tokens "," g) -> gid_of_token w tok = None ->
    group_verdict w group gid pw [] (Ended (Exited 1))
| gv_explicit_null (g : string) :
    group = Some g -> g <> EmptyString ->
    strtok "," g = None ->
    group_verdict w group gid pw [] (Ended Crashed).

(** The last thing in the trace is a message on standard error. *)
Definition ends_with_stderr (t : list event) : Prop :=
  exists t' fmt arg, t = t' ++ [Stderr fmt arg].

(** A caller without privilege: uid and gid 1000, the user "app".
    The kernel lets it keep its own ids and refuses the rest, and the
    only command that can be run is "id". *)
Definition app_pw : passwd :=
  {| pw_name := "app"; pw_uid := 1000; pw_gid := 1000; pw_dir := "/home/app" |}.

Definition w_user : World :=
  {| w_getuid := 1000;
     w_getgid := 1000;
     w_getpwnam := fun n =>
       if String.eqb n "root" then Some root_pw
       else if String.eqb n "app" then Some app_pw else None;
     w_getpwuid := fun u =>
       if u =? 0 then Some root_pw
       else if u =? 1000 then Some app_pw else None;
     w_getgrnam := fun n => if String.eqb n "staff" then Some 50 else None;
     w_getgrouplist := fun _ _ g buf n =>
       if 1 <=? n then (1, 1, [Some g] ++ drop 1 buf) else (-1, 1, buf);
     w_realloc_ok := fun _ _ => true;
     w_setgroups_ok := fun _ _ => false;
     w_setgid_ok := fun g => g =? 1000;
     w_setuid_ok := fun u => u =? 1000;
     w_execvp_ok := fun f _ => String.eqb f "id";
     w_environ := {[ "PATH" := "/bin" ]}%string |}.

(** The system of [w_demo] with a kernel that refuses the gid 50 and
    with "id" as the only command that can be run. *)
Definition w_nomap : World :=
  {| w_getuid := w_getuid w_demo;
     w_getgid := w_getgid w_demo;
     w_getpwnam := w_getpwnam w_demo;
     w_getpwuid := w_getpwuid w_demo;
     w_getgrnam := w_getgrnam w_demo;
     w_getgrouplist := w_getgrouplist w_demo;
     w_realloc_ok := w_realloc_ok w_demo;
     w_setgroups_ok := w_setgroups_ok w_demo;
     w_setgid_ok := fun g => negb (g =? 50);
     w_setuid_ok := w_setuid_ok w_demo;
     w_execvp_ok := fun f _ => String.eqb f "id";
     w_environ := w_environ w_demo |}.

(** A computation that exits only with status 1, and only after a
    message on standard error. *)
Definition err_tail {A : Type} (m : M A) : Prop :=
  forall (env : gmap string string) (t : list event) (n : Z),
    m env = (t, Stop (Exited n)) -> n = 1 /\ ends_with_stderr t.

(** A computation that always ends the process. *)
Definition never_returns {A : Type} (m : M A) : Prop :=
  forall (env env' : gmap string string) (t : list event) (a : A),
    m env <> (t, Next a env').



(** * Properties *)

(** ** The library functions on small inputs *)

Example strtol_number : strtol "1000" = (1000, EmptyString).
Proof. reflexivity. Qed.

Example strtol_stops_at_letter : strtol "  +12x" = (12, "x"%string).
Proof. reflexivity. Qed.

Example strtol_no_digits : strtol " -" = (0, " -"%string).
Proof. reflexivity. Qed.

Example strtol_saturates :
  strtol "99999999999999999999" = (LONG_MAX, EmptyString).
Proof. reflexivity. Qed.

Example strtok_first : strtok "," ",,a,b" = Some ("a"%string, "b"%string).
Proof. reflexivity. Qed.

Example strtok_only_commas : strtok "," ",," = None.
Proof. reflexivity. Qed.

Example tokens_skip_empty : tokens "," ",a,,b," = ["a"; "b"]%string.
Proof. reflexivity. Qed.

Example str_occurrences_commas : str_occurrences ",a,,b," "," = 4%nat.
Proof. reflexivity. Qed.

(** ** Strings: splitting at the colon *)

Lemma strchr_app_first (u r : string) (c : ascii) :
  strchr u c = None ->
  strchr (u +:+ String c r) c = Some (String.length u).
Proof.
  induction u as [|a u IH]; simpl.
  - intros _. rewrite Ascii.eqb_refl. reflexivity.
  - destruct (Ascii.eqb a c); [discriminate|].
    destruct (strchr u c); [discriminate|]. intros _.
    rewrite IH; reflexivity.
Qed.

Lemma str_take_app (u r : string) : str_take (String.length u) (u +:+ r) = u.
Proof.
  induction u as [|a u IH]; simpl; [destruct r; reflexivity|].
  rewrite IH. reflexivity.
Qed.

Lemma str_drop_app (u r : string) (c : ascii) :
  str_drop (S (String.length u)) (u +:+ String c r) = r.
Proof. induction u as [|a u IH]; simpl; [reflexivity | exact IH]. Qed.

Lemma split_spec_colon (u g : string) :
  strchr u ":" = None -> split_spec (u +:+ ":" +:+ g) = (u, Some g).
Proof.
  intros H. unfold split_spec.
  change (":" +:+ g) with (String ":" g).
  rewrite (strchr_app_first u g ":" H), str_take_app, str_drop_app.
  reflexivity.
Qed.

Lemma split_spec_plain (s : string) :
  strchr s ":" = None -> split_spec s = (s, None).
Proof. unfold split_spec. intros ->. reflexivity. Qed.

(** C5: the user-spec is split at its first colon only. *)
Theorem C5_split_at_first_colon (u g s : string) :
  (strchr u ":" = None -> split_spec (u +:+ ":" +:+ g) = (u, Some g)) /\
  (strchr s ":" = None -> split_spec s = (s, None)) /\
  split_spec "alice:staff" = ("alice", Some "staff") /\
  split_spec "alice" = ("alice", None) /\
  split_spec ":staff" = ("", Some "staff") /\
  split_spec "alice:staff:wheel,adm" = ("alice", Some "staff:wheel,adm").
Proof.
  split; [apply split_spec_colon|].
  split; [apply split_spec_plain|].
  repeat split; reflexivity.
Qed.

Lemma C5_split_witness :
  split_spec ("bob" +:+ ":" +:+ "a:b") = ("bob", Some "a:b") /\
  split_spec "bob" = ("bob", None).
Proof.
  destruct (C5_split_at_first_colon "bob" "a:b" "bob") as (H1 & H2 & _).
  split; [apply H1 | apply H2]; reflexivity.
Defined.

(** ** Usage *)

Lemma run_usage (w : World) (fuel : nat) (argv0 : string) (args : list string) :
  (length args < 2)%nat ->
  run w fuel argv0 args = ([Getuid; Getgid; Stdout (usage_text argv0)], Exited 0).
Proof.
  destruct args as [|a [|b rest]]; [reflexivity | reflexivity |].
  simpl. lia.
Qed.

(** C9: with fewer than two positional arguments the program prints the
    usage text on standard output and exits with 0; it has only read the
    caller's ids: no lookup, no change of identity or environment, no
    exec. *)
Theorem C9_usage_on_few_args (w : World) (fuel : nat) (argv0 : string)
  (args : list string) :
  (length args < 2)%nat ->
  run w fuel argv0 args
    = ([Getuid; Getgid; Stdout (usage_text argv0)], Exited 0) /\
  usage_text argv0 <> "" /\
  Forall (fun e => is_lookup e = false /\ is_idchange e = false /\
                   is_setenv e = false /\ is_exec e = false)
    (fst (run w fuel argv0 args)).
Proof.
  intros Hlen. rewrite (run_usage w fuel argv0 args Hlen).
  split; [reflexivity|]. split; [discriminate|].
  simpl. repeat constructor.
Qed.

Lemma C9_usage_witness :
  run w_demo 0 "su-exec" ["root:wheel"]
  = ([Getuid; Getgid;
      Stdout "Usage: su-exec user-spec command [args]
"], Exited 0).
Proof.
  refine (proj1 (C9_usage_on_few_args w_demo 0 "su-exec" ["root:wheel"] _)).
  simpl. lia.
Defined.

(** ** Strings: what [strtol] consumes *)

Lemma isdigit_not_space (c : ascii) : isdigit c = true -> isspace c = false.
Proof.
  unfold isdigit, isspace. generalize (nat_of_ascii c). intros n H.
  apply andb_true_iff in H as [H1 H2].
  apply Nat.leb_le in H1. apply Nat.leb_le in H2.
  apply orb_false_iff. split.
  - apply Nat.eqb_neq. lia.
  - apply andb_false_iff. right. apply Nat.leb_gt. lia.
Qed.

Lemma isdigit_not_sign (c : ascii) :
  isdigit c = true -> Ascii.eqb c "-" = false /\ Ascii.eqb c "+" = false.
Proof.
  intros H. split; apply Ascii.eqb_neq; intros ->; discriminate H.
Qed.

Lemma digit_val_range (c : ascii) : isdigit c = true -> 0 <= digit_val c <= 9.
Proof.
  unfold isdigit, digit_val. generalize (nat_of_ascii c). intros n H.
  apply andb_true_iff in H as [H1 H2].
  apply Nat.leb_le in H1. apply Nat.leb_le in H2. lia.
Qed.

Lemma skip_space_split (s : string) :
  exists ws, s = ws +:+ skip_space s /\ str_forall isspace ws = true.
Proof.
  induction s as [|c s (ws & E & Hws)]; simpl.
  - exists EmptyString. split; reflexivity.
  - destruct (isspace c) eqn:Hc.
    + exists (String c ws). split.
      * change (String c s = String c (ws +:+ skip_space s)). f_equal. exact E.
      * simpl. rewrite Hc. exact Hws.
    + exists EmptyString. split; reflexivity.
Qed.

Lemma skip_space_app (ws r : string) :
  str_forall isspace ws = true -> skip_space (ws +:+ r) = skip_space r.
Proof.
  induction ws as [|c ws IH]; simpl; [reflexivity|].
  intros H. apply andb_true_iff in H as [-> H]. auto.
Qed.

Lemma scan_digits_all (s : string) (acc : Z) :
  str_forall isdigit s = true ->
  scan_digits acc s = (acc * 10 ^ Z.of_nat (String.length s) + decimal s, EmptyString).
Proof.
  revert acc. induction s as [|c s IH]; simpl; intros acc H.
  - f_equal. lia.
  - apply andb_true_iff in H as [-> H]. rewrite (IH _ H). f_equal.
    rewrite Nat2Z.inj_succ, Z.pow_succ_r by lia. lia.
Qed.

Lemma scan_digits_end (s : string) (acc : Z) :
  snd (scan_digits acc s) = EmptyString -> str_forall isdigit s = true.
Proof.
  revert acc. induction s as [|c s IH]; simpl; intros acc; [reflexivity|].
  destruct (isdigit c); simpl; [apply IH | discriminate].
Qed.

Lemma decimal_nonneg (s : string) : str_forall isdigit s = true -> 0 <= decimal s.
Proof.
  induction s as [|c s IH]; simpl; [lia|]. intros H.
  apply andb_true_iff in H as [Hc H]. apply digit_val_range in Hc.
  specialize (IH H). nia.
Qed.

Lemma strtol_integer_text (s : string) (neg : bool) (ds : string) :
  integer_text s neg ds ->
  strtol s = (clamp_long (if neg then - decimal ds else decimal ds), EmptyString).
Proof.
  intros (ws & sg & -> & Hws & Hsg & Hne & Hds).
  destruct ds as [|d ds]; [congruence|]. clear Hne.
  assert (Hd : isdigit d = true) by (simpl in Hds; apply andb_true_iff in Hds; tauto).
  pose proof (isdigit_not_space d Hd) as Hsp.
  destruct (isdigit_not_sign d Hd) as [Hm Hp].
  unfold strtol. rewrite (skip_space_app _ _ Hws).
  pose proof (scan_digits_all (String d ds) 0 Hds) as Hscan.
  rewrite Z.mul_0_l, Z.add_0_l in Hscan.
  destruct Hsg as [-> | [-> ->]]; [destruct neg|].
  - change (skip_space ("-" +:+ String d ds)) with (String "-" (String d ds)).
    cbv iota. rewrite Ascii.eqb_refl, Hd, Hscan. reflexivity.
  - change ("" +:+ String d ds) with (String d ds).
    cbn [skip_space]. rewrite Hsp, Hm, Hp, Hd, Hscan. reflexivity.
  - change (skip_space ("+" +:+ String d ds)) with (String "+" (String d ds)).
    cbv iota. change (Ascii.eqb "+" "-") with false.
    cbv iota. rewrite Ascii.eqb_refl, Hd, Hscan. reflexivity.
Qed.

Lemma strtol_whole_inv (s : string) :
  s <> EmptyString -> snd (strtol s) = EmptyString ->
  exists neg ds, integer_text s neg ds.
Proof.
  intros Hs. unfold strtol.
  destruct (skip_space_split s) as (ws & E & Hws).
  destruct (skip_space s) as [|c r] eqn:Hskip; [simpl; congruence|].
  assert (Hdig : forall (neg : bool) (sg s2 : string),
    s = ws +:+ sg +:+ s2 ->
    (sg = (if neg then "-" else "")%string \/ (neg = false /\ sg = "+"%string)) ->
    snd (match s2 with
         | String c _ =>
             if isdigit c then
               let '(v, rest) := scan_digits 0 s2 in
               (clamp_long (if neg then - v else v), rest)
             else (0, s)
         | EmptyString => (0, s)
         end) = EmptyString ->
    exists neg ds, integer_text s neg ds).
  { intros neg sg s2 Es Hsg H. destruct s2 as [|d s2]; [simpl in H; congruence|].
    destruct (isdigit d) eqn:Hd; [|simpl in H; congruence].
    destruct (scan_digits 0 (String d s2)) as [v rest] eqn:Hscan.
    simpl in H. subst rest.
    exists neg, (String d s2), ws, sg. repeat split; try assumption; try discriminate.
    apply (scan_digits_end _ 0). rewrite Hscan. reflexivity. }
  destruct (Ascii.eqb_spec c "-") as [-> | Hm].
  { apply (Hdig true "-"%string r); [exact E | left; reflexivity]. }
  destruct (Ascii.eqb_spec c "+") as [-> | Hp].
  { apply (Hdig false "+"%string r); [exact E | right; split; reflexivity]. }
  apply (Hdig false EmptyString (String c r)); [exact E | left; reflexivity].
Qed.

Lemma str_last_app (a b : string) :
  b <> EmptyString -> str_last (a +:+ b) = str_last b.
Proof.
  intros Hb. induction a as [|c a IH]; simpl; [reflexivity|].
  rewrite IH. destruct (a +:+ b) eqn:E; [|reflexivity].
  destruct a; [change (b = EmptyString) in E; contradiction | discriminate E].
Qed.

Lemma str_last_digit (ds : string) (c : ascii) :
  str_forall isdigit ds = true -> str_last ds = Some c -> isdigit c = true.
Proof.
  induction ds as [|d ds IH]; simpl; [discriminate|].
  intros H. apply andb_true_iff in H as [Hd H].
  destruct ds; [intros [= <-]; exact Hd | auto].
Qed.

Lemma strtol_trailing (s : string) (c : ascii) :
  isdigit c = false -> snd (strtol (s +:+ String c EmptyString)) <> EmptyString.
Proof.
  intros Hc H.
  destruct (strtol_whole_inv (s +:+ String c EmptyString)) as (neg & ds & ws & sg & E & _ & _ & Hne & Hds);
    [destruct s; discriminate | exact H |].
  assert (Hl : str_last (s +:+ String c EmptyString) = Some c)
    by (rewrite str_last_app; [reflexivity | discriminate]).
  rewrite E in Hl.
  rewrite str_last_app in Hl.
  2:{ destruct sg; simpl; [exact Hne | discriminate]. }
  rewrite str_last_app in Hl by exact Hne.
  rewrite (str_last_digit ds c Hds Hl) in Hc. discriminate.
Qed.

(** ** Numeric tokens *)

Lemma get_gid_name (w : World) (ref : string) (env : gmap string string) :
  snd (strtol ref) <> EmptyString ->
  get_gid w ref env =
    match w_getgrnam w ref with
    | Some g => ([Getgrnam ref], Next g env)
    | None => ([Getgrnam ref; Stderr "getgrnam(%s)" (ArgStr ref)], Stop (Exited 1))
    end.
Proof.
  unfold get_gid. destruct (strtol ref) as [n [|c e]]; simpl; [congruence|].
  intros _. unfold bind, getgrnam, emit, ret, bind. simpl.
  destruct (w_getgrnam w ref); reflexivity.
Qed.

Lemma get_gid_number (w : World) (ref : string) (env : gmap string string) :
  snd (strtol ref) = EmptyString ->
  get_gid w ref env = ([], Next (to_id (fst (strtol ref))) env).
Proof.
  unfold get_gid. destruct (strtol ref) as [n e]; simpl. intros ->. reflexivity.
Qed.

Lemma resolve_user_name (w : World) (user : string) (uid gid : Z)
  (env : gmap string string) :
  user <> EmptyString -> snd (strtol user) <> EmptyString ->
  main_resolve_user w user uid gid env =
    match w_getpwnam w user with
    | Some p => ([Getpwnam user], Next (pw_uid p, pw_gid p, Some p) env)
    | None => ([Getpwnam user; Stderr "getpwnam(%s)" (ArgStr user)], Stop (Exited 1))
    end.
Proof.
  unfold main_resolve_user. destruct user as [|a user]; [congruence|]. intros _.
  destruct (strtol (String a user)) as [n [|c e]]; simpl; [congruence|].
  intros _. unfold bind, getpwnam, emit, ret, bind. simpl.
  destruct (w_getpwnam w (String a user)); reflexivity.
Qed.

Lemma resolve_user_number (w : World) (user : string) (uid gid : Z)
  (env : gmap string string) :
  user <> EmptyString -> snd (strtol user) = EmptyString ->
  main_resolve_user w user uid gid env =
    ([Getpwuid (to_id (fst (strtol user)))],
     match w_getpwuid w (to_id (fst (strtol user))) with
     | Some p => Next (pw_uid p, pw_gid p, Some p) env
     | None => Next (to_id (fst (strtol user)), gid, None) env
     end).
Proof.
  unfold main_resolve_user. destruct user as [|a user]; [congruence|]. intros _.
  destruct (strtol (String a user)) as [n e]; simpl. intros ->.
  unfold bind, getpwuid, emit, ret, bind. simpl.
  destruct (w_getpwuid w (to_id n)); reflexivity.
Qed.

Lemma resolve_user_empty (w : World) (uid gid : Z) (env : gmap string string) :
  main_resolve_user w EmptyString uid gid env =
    ([Getpwuid uid],
     match w_getpwuid w uid with
     | Some p => Next (pw_uid p, pw_gid p, Some p) env
     | None => Next (uid, gid, None) env
     end).
Proof.
  unfold main_resolve_user, bind, getpwuid, emit, ret, bind. simpl.
  destruct (w_getpwuid w uid); reflexivity.
Qed.

Lemma strtol_digits (ds : string) :
  ds <> EmptyString -> str_forall isdigit ds = true ->
  strtol ds = (clamp_long (decimal ds), EmptyString).
Proof.
  intros Hne Hds. apply (strtol_integer_text ds false ds).
  exists EmptyString, EmptyString. repeat split; auto.
Qed.

Lemma to_id_small (v : Z) : 0 <= v < 2 ^ 32 -> to_id (clamp_long v) = v.
Proof.
  intros H. unfold clamp_long, to_id, LONG_MIN, LONG_MAX.
  destruct (Z.ltb_spec v (- 2 ^ 63)); [lia|].
  destruct (Z.ltb_spec (2 ^ 63 - 1) v); [lia|].
  apply Z.mod_small. exact H.
Qed.

(** C4 (amended): a token is taken as a number exactly when [strtol]
    consumes it whole, that is when it is white space, an optional sign,
    then digits to the end.  Such a token is never looked up by name:
    [get_gid] and the resolution of the user take the value of [strtol],
    a negative one too, converted to the id type.  Every other token
    goes to the name lookup, and so does one that ends in a non-digit.
    A string of digits of value below 2^32 is that id. *)
Theorem C4_numeric_tokens (w : World) (tok : string) (c : ascii)
  (uid gid : Z) (env : gmap string string) :
  (tok <> EmptyString ->
     (snd (strtol tok) = EmptyString <-> exists neg ds, integer_text tok neg ds)) /\
  (forall (neg : bool) (ds : string), integer_text tok neg ds ->
     let id := to_id (clamp_long (if neg then - decimal ds else decimal ds)) in
     get_gid w tok env = ([], Next id env) /\
     main_resolve_user w tok uid gid env =
       ([Getpwuid id],
        match w_getpwuid w id with
        | Some p => Next (pw_uid p, pw_gid p, Some p) env
        | None => Next (id, gid, None) env
        end)) /\
  (tok <> EmptyString -> ~ (exists neg ds, integer_text tok neg ds) ->
     get_gid w tok env =
       match w_getgrnam w tok with
       | Some g => ([Getgrnam tok], Next g env)
       | None =>
           ([Getgrnam tok; Stderr "getgrnam(%s)" (ArgStr tok)],
            Stop (Exited 1))
       end /\
     main_resolve_user w tok uid gid env =
       match w_getpwnam w tok with
       | Some p => ([Getpwnam tok], Next (pw_uid p, pw_gid p, Some p) env)
       | None =>
           ([Getpwnam tok; Stderr "getpwnam(%s)" (ArgStr tok)],
            Stop (Exited 1))
       end) /\
  (isdigit c = false ->
     let name := tok +:+ String c EmptyString in
     get_gid w name env =
       match w_getgrnam w name with
       | Some g => ([Getgrnam name], Next g env)
       | None =>
           ([Getgrnam name; Stderr "getgrnam(%s)" (ArgStr name)],
            Stop (Exited 1))
       end /\
     main_resolve_user w name uid gid env =
       match w_getpwnam w name with
       | Some p => ([Getpwnam name], Next (pw_uid p, pw_gid p, Some p) env)
       | None =>
           ([Getpwnam name; Stderr "getpwnam(%s)" (ArgStr name)],
            Stop (Exited 1))
       end) /\
  (tok <> EmptyString -> str_forall isdigit tok = true ->
   decimal tok < 2 ^ 32 ->
     get_gid w tok env = ([], Next (decimal tok) env) /\
     main_resolve_user w tok uid gid env =
       ([Getpwuid (decimal tok)],
        match w_getpwuid w (decimal tok) with
        | Some p => Next (pw_uid p, pw_gid p, Some p) env
        | None => Next (decimal tok, gid, None) env
        end)).
Proof.
  split; [|split; [|split; [|split]]].
  - intros Hne. split.
    + apply strtol_whole_inv. exact Hne.
    + intros (neg & ds & H). rewrite (strtol_integer_text _ _ _ H). reflexivity.
  - intros neg ds Htext id.
    pose proof (strtol_integer_text tok neg ds Htext) as E.
    assert (Hne : tok <> EmptyString).
    { intros ->. destruct Htext as (ws & sg & Happ & _ & _ & Hds & _).
      destruct ws; [|discriminate Happ].
      destruct sg; [|discriminate Happ].
      destruct ds; [congruence | discriminate Happ]. }
    split.
    + rewrite get_gid_number by (rewrite E; reflexivity).
      rewrite E. reflexivity.
    + rewrite resolve_user_number by (try assumption; rewrite E; reflexivity).
      rewrite E. reflexivity.
  - intros Hne Hno.
    assert (Hend : snd (strtol tok) <> EmptyString)
      by (intros H; apply Hno, strtol_whole_inv; assumption).
    split.
    + apply get_gid_name. exact Hend.
    + apply resolve_user_name; assumption.
  - intros Hc name. pose proof (strtol_trailing tok c Hc) as Hend.
    split.
    + apply get_gid_name. exact Hend.
    + apply resolve_user_name; [destruct tok; discriminate | exact Hend].
  - intros Hne Hds Hlt.
    pose proof (strtol_digits tok Hne Hds) as E.
    pose proof (decimal_nonneg tok Hds) as H0.
    assert (Hid : to_id (fst (strtol tok)) = decimal tok)
      by (rewrite E; apply to_id_small; lia).
    split.
    + rewrite get_gid_number by (rewrite E; reflexivity). rewrite Hid. reflexivity.
    + rewrite resolve_user_number by (try assumption; rewrite E; reflexivity).
      rewrite Hid. reflexivity.
Qed.

(** ** Strings: the tokens of [strtok] *)

Lemma span_token_le (d : ascii) (s : string) :
  (String.length (snd (span_token d s)) <= String.length s)%nat.
Proof.
  induction s as [|c s IH]; simpl; [lia|].
  destruct (Ascii.eqb c d); simpl; [lia|].
  destruct (span_token d s) as [t save]; simpl in *. lia.
Qed.

Lemma skip_delim_le (d : ascii) (s : string) :
  (String.length (skip_delim d s) <= String.length s)%nat.
Proof.
  induction s as [|c s IH]; simpl; [lia|].
  destruct (Ascii.eqb c d); simpl; lia.
Qed.

Lemma strtok_shorter (d : ascii) (s t save : string) :
  strtok d s = Some (t, save) -> (String.length save < String.length s)%nat.
Proof.
  unfold strtok. pose proof (skip_delim_le d s) as Hle.
  destruct (skip_delim d s) as [|c r]; [discriminate|].
  intros [= E]. simpl in E, Hle.
  pose proof (span_token_le d r) as Hr.
  destruct (Ascii.eqb c d).
  - injection E as _ <-. lia.
  - destruct (span_token d r) as [t' save']. injection E as _ <-. simpl in Hr. lia.
Qed.

Lemma strtok_seq_enough (d : ascii) (n m : nat) (s : string) :
  (String.length s <= n)%nat -> (String.length s <= m)%nat ->
  strtok_seq n d s = strtok_seq m d s.
Proof.
  revert m s. induction n as [|n IH]; intros m s Hn Hm.
  - destruct s; [|simpl in Hn; lia]. destruct m; reflexivity.
  - destruct m as [|m].
    + destruct s; [reflexivity | simpl in Hm; lia].
    + simpl. destruct (strtok d s) as [[t save]|] eqn:E; [|reflexivity].
      apply strtok_shorter in E. f_equal. apply IH; lia.
Qed.

Lemma tokens_unfold (d : ascii) (s : string) :
  tokens d s =
    match strtok d s with
    | None => []
    | Some (t, save) => t :: tokens d save
    end.
Proof.
  unfold tokens. destruct s as [|c s]; [reflexivity|].
  cbn [String.length strtok_seq].
  destruct (strtok d (String c s)) as [[t save]|] eqn:E; [|reflexivity].
  apply strtok_shorter in E. simpl in E. f_equal.
  apply strtok_seq_enough; lia.
Qed.

Lemma span_token_plain (d : ascii) (s : string) :
  str_occurrences s d = O -> span_token d s = (s, EmptyString).
Proof.
  induction s as [|c s IH]; simpl; [reflexivity|].
  destruct (Ascii.eqb c d); [discriminate|]. intros H.
  rewrite (IH H). reflexivity.
Qed.

Lemma tokens_plain (d : ascii) (s : string) :
  s <> EmptyString -> str_occurrences s d = O -> tokens d s = [s].
Proof.
  intros Hne H. rewrite tokens_unfold. unfold strtok.
  destruct s as [|c s]; [congruence|].
  pose proof (span_token_plain d _ H) as Hspan.
  simpl in H |- *. destruct (Ascii.eqb c d); [discriminate|].
  simpl in Hspan. rewrite Hspan. reflexivity.
Qed.

(** ** The monad *)

Lemma bind_inv {A B : Type} (m : M A) (f : A -> M B)
  (env : gmap string string) (t : list event) (r : result B) :
  bind m f env = (t, r) ->
  (exists t1 a env1 t2,
      m env = (t1, Next a env1) /\ f a env1 = (t2, r) /\ t = t1 ++ t2) \/
  (exists o, m env = (t, Stop o) /\ r = Stop o).
Proof.
  unfold bind. destruct (m env) as [t1 [a env1|o]].
  - destruct (f a env1) as [t2 r2] eqn:E. intros [= <- <-].
    left. exists t1, a, env1, t2. auto.
  - intros [= <- <-]. right. exists o. auto.
Qed.

Lemma bind_next {A B : Type} (m : M A) (f : A -> M B)
  (env env1 : gmap string string) (t1 : list event) (a : A) :
  m env = (t1, Next a env1) ->
  bind m f env = (t1 ++ fst (f a env1), snd (f a env1)).
Proof. unfold bind. intros ->. destruct (f a env1); reflexivity. Qed.

Lemma bind_stop {A B : Type} (m : M A) (f : A -> M B)
  (env : gmap string string) (t1 : list event) (o : outcome) :
  m env = (t1, Stop o) -> bind m f env = (t1, Stop o).
Proof. unfold bind. intros ->. reflexivity. Qed.

(** ** The phases of [main] *)

Lemma get_gid_run (w : World) (ref : string) (env : gmap string string) :
  exists t,
    get_gid w ref env =
      (t, match gid_of_token w ref with
          | Some g => Next g env
          | None => Stop (Exited 1)
          end) /\
    List.filter noisy t = [].
Proof.
  unfold gid_of_token.
  destruct (strtol ref) as [n e] eqn:E. destruct e as [|c e].
  - exists []. rewrite get_gid_number by (rewrite E; reflexivity).
    rewrite E. auto.
  - rewrite get_gid_name by (rewrite E; discriminate).
    destruct (w_getgrnam w ref); eexists; split; reflexivity.
Qed.

Lemma resolve_user_run (w : World) (user : string) (uid gid : Z)
  (env : gmap string string) (t : list event)
  (r : result (Z * Z * option passwd)) :
  main_resolve_user w user uid gid env = (t, r) ->
  List.filter noisy t = [] /\
  (r = Stop (Exited 1) \/ exists a, r = Next a env).
Proof.
  destruct user as [|c user].
  - rewrite resolve_user_empty. intros [= <- <-]. split; [reflexivity|].
    right. destruct (w_getpwuid w uid); eauto.
  - destruct (snd (strtol (String c user))) as [|c' e] eqn:E.
    + rewrite resolve_user_number by (try discriminate; exact E).
      intros [= <- <-]. split; [reflexivity|]. right.
      destruct (w_getpwuid w _); eauto.
    + rewrite resolve_user_name by (try discriminate; rewrite E; discriminate).
      destruct (w_getpwnam w _); intros [= <- <-]; split;
        try reflexivity; eauto.
Qed.

Lemma drop_cons_inv {A : Type} (l r : list A) (i : nat) (x : A) :
  drop i l = x :: r -> l !! i = Some x /\ drop (S i) l = r.
Proof.
  intros E. assert (Hx : l !! i = Some x).
  { rewrite <- (Nat.add_0_r i), <- lookup_drop, E. reflexivity. }
  split; [exact Hx|]. rewrite (drop_S _ _ _ Hx) in E. congruence.
Qed.

Lemma from_tokens_insert (w : World) (toks : list string) (l : list slot)
  (i : nat) (tok : string) (g : Z) :
  from_tokens w toks l -> toks !! i = Some tok ->
  gid_of_token w tok = Some g ->
  from_tokens w toks (<[i := Some g]> l).
Proof.
  intros Hl Htok Hg j g' Hj.
  apply list_lookup_insert_Some in Hj as [(-> & [= ->] & _) | (_ & Hj)].
  - exists tok. auto.
  - apply Hl. exact Hj.
Qed.

Lemma fill_gidlist_run (w : World) (all : list string) (toks : list string) :
  forall (i : nat) (l : list slot) (env : gmap string string)
    (t : list event) (r : result (list slot)),
  main_fill_gidlist w toks i l env = (t, r) ->
  drop (S i) all = toks -> from_tokens w all l ->
  List.filter noisy t = [] /\
  (r = Stop (Exited 1) \/ r = Stop Crashed \/
   exists l', r = Next l' env /\ from_tokens w all l').
Proof.
  induction toks as [|token toks IH]; intros i l env t r Hrun Hdrop Hl.
  - injection Hrun as <- <-. split; [reflexivity|]. right. right. eauto.
  - cbn [main_fill_gidlist] in Hrun.
    apply drop_cons_inv in Hdrop as [Htok Hdrop].
    destruct (get_gid_run w token env) as (tg & Eg & Hq).
    destruct (gid_of_token w token) as [g|] eqn:Hg.
    + rewrite (bind_next _ _ _ _ _ _ Eg) in Hrun.
      destruct (S i <? length l)%nat.
      * destruct (main_fill_gidlist w toks (S i) (<[S i := Some g]> l) env)
          as [t' r'] eqn:E'.
        injection Hrun as <- <-.
        apply IH in E' as [Hq' Hr']; [|exact Hdrop|].
        -- rewrite List.filter_app, Hq, Hq'. split; [reflexivity | exact Hr'].
        -- eapply from_tokens_insert; eauto.
      * injection Hrun as <- <-. rewrite List.filter_app, Hq.
        split; [reflexivity|]. auto.
    + rewrite (bind_stop _ _ _ _ _ Eg) in Hrun. injection Hrun as <- <-.
      split; [exact Hq|]. auto.
Qed.

Lemma explicit_groups_run (w : World) (g : string) (gid : Z)
  (pw : option passwd) (env : gmap string string) (t : list event)
  (r : result (Z * option passwd)) :
  g <> EmptyString ->
  main_explicit_groups w (Some g) gid pw env = (t, r) ->
  (List.filter noisy t = [] /\ (r = Stop (Exited 1) \/ r = Stop Crashed)) \/
  (exists l,
     List.filter noisy t
       = [Setgroups (Z.of_nat (str_occurrences g "," + 1)) l] /\
     from_tokens w (tokens "," g) l /\
     (r = Stop (Exited 1) \/
      exists tok gid',
        head (tokens "," g) = Some tok /\ gid_of_token w tok = Some gid' /\
        r = Next (gid', None) env)).
Proof.
  intros Hne. destruct g as [|c0 g0]; [congruence|].
  unfold main_explicit_groups. cbv beta iota zeta.
  remember (String c0 g0) as g eqn:Hgdef. clear Hgdef c0 g0.
  destruct (Nat.eqb_spec (str_occurrences g "," + 1) 1) as [Hone | Hmany].
  - (* one token: lines 103-105 *)
    assert (Htoks : tokens "," g = [g]) by (apply tokens_plain; [exact Hne | lia]).
    destruct (get_gid_run w g env) as (tg & Eg & Hq).
    destruct (gid_of_token w g) as [x|] eqn:Hg.
    + rewrite (bind_next _ _ _ _ _ _ Eg). unfold setgroups, bind, emit, ret.
      simpl. rewrite Hone. intros Hrun. right. exists [Some x].
      assert (Hfrom : from_tokens w (tokens "," g) [Some x]).
      { rewrite Htoks. intros [|j] y Hj; [|destruct j; discriminate].
        injection Hj as <-. exists g. auto. }
      destruct (w_setgroups_ok w 1 [Some x]); injection Hrun as <- <-;
        rewrite List.filter_app, Hq; (split; [reflexivity|]);
        (split; [exact Hfrom|]); [right | left; reflexivity].
      exists g, x. rewrite Htoks. auto.
    + rewrite (bind_stop _ _ _ _ _ Eg). intros [= <- <-]. left. auto.
  - (* several tokens: lines 109-127 *)
    rewrite (tokens_unfold "," g).
    destruct (strtok "," g) as [[token save]|] eqn:Etok.
    2:{ intros [= <- <-]. left. auto. }
    destruct (get_gid_run w token env) as (tg & Eg & Hq).
    destruct (gid_of_token w token) as [x|] eqn:Hg.
    2:{ rewrite (bind_stop _ _ _ _ _ Eg). intros [= <- <-]. left. auto. }
    rewrite (bind_next _ _ _ _ _ _ Eg).
    set (cnt := (str_occurrences g "," + 1)%nat).
    set (l0 := <[O := Some x]> (replicate cnt None) : list slot).
    assert (Hl0 : from_tokens w (token :: tokens "," save) l0).
    { intros j y Hj. subst l0.
      apply list_lookup_insert_Some in Hj as [(<- & [= <-] & _) | (_ & Hj)].
      - exists token. auto.
      - apply lookup_replicate in Hj as [Hj _]. discriminate. }
    destruct (main_fill_gidlist w (tokens "," save) O l0 env) as [tf rf] eqn:Ef.
    apply (fill_gidlist_run w (token :: tokens "," save)) in Ef as Hf;
      [|reflexivity | exact Hl0].
    destruct Hf as [Hqf Hrf].
    destruct Hrf as [-> | [-> | (l' & -> & Hl')]].
    + rewrite (bind_stop _ _ _ _ _ Ef). simpl. intros [= <- <-].
      left. rewrite List.filter_app, Hq, Hqf. auto.
    + rewrite (bind_stop _ _ _ _ _ Ef). simpl. intros [= <- <-].
      left. rewrite List.filter_app, Hq, Hqf. auto.
    + rewrite (bind_next _ _ _ _ _ _ Ef). unfold setgroups, bind, emit, ret.
      simpl. intros Hrun. right. exists l'.
      destruct (w_setgroups_ok w (Z.of_nat cnt) l'); injection Hrun as <- <-;
        rewrite !List.filter_app, Hq, Hqf; (split; [reflexivity|]);
        (split; [exact Hl'|]); [right | left; reflexivity].
      exists token, x. auto.
Qed.

Lemma grouplist_loop_run (w : World) (fuel : nat) :
  forall (k : nat) (name : string) (gid : Z) (glist : list slot) (n : Z)
    (env : gmap string string) (t : list event) (r : result unit),
  main_grouplist_loop w fuel k name gid glist n env = (t, r) ->
  exists q sg,
    List.filter noisy t = q ++ sg /\
    Forall (fun e => is_getgrouplist e = true) q /\
    ((sg = [] /\ (r = Stop (Exited 1) \/ r = Stop Spinning)) \/
     (exists n' l, sg = [Setgroups n' l] /\
                   (r = Next tt env \/ r = Stop (Exited 1)))).
Proof.
  induction fuel as [|fuel IH]; intros k name gid glist n env t r Hrun.
  - injection Hrun as <- <-. exists [], []. repeat split; auto.
  - cbn [main_grouplist_loop] in Hrun.
    rewrite (bind_next _ _ env env [Getgrouplist name gid n] tt eq_refl) in Hrun.
    destruct (w_getgrouplist w k name gid glist n) as [[r0 n'] glist'].
    destruct (0 <=? r0).
    + unfold setgroups, bind, emit, ret in Hrun. simpl in Hrun.
      exists [Getgrouplist name gid n], [Setgroups n' glist'].
      destruct (w_setgroups_ok w n' glist'); injection Hrun as <- <-;
        (split; [reflexivity|]); (split; [repeat constructor|]);
        right; eauto.
    + destruct (w_realloc_ok w k n').
      * destruct (main_grouplist_loop w fuel (S k) name gid (resize glist' n') n' env)
          as [t' r'] eqn:E'.
        injection Hrun as <- <-.
        apply IH in E' as (q & sg & Ht' & Hq & Hsg).
        exists (Getgrouplist name gid n :: q), sg.
        split; [simpl; rewrite Ht'; reflexivity|].
        split; [constructor; [reflexivity | exact Hq] | exact Hsg].
      * injection Hrun as <- <-. exists [Getgrouplist name gid n], [].
        repeat split; auto.
Qed.

Lemma transition_run (w : World) (uid gid : Z) (cmd : string)
  (rest : list string) (env : gmap string string) (t : list event)
  (r : result unit) :
  main_transition w uid gid cmd (cmd :: rest) env = (t, r) ->
  exists out, r = Stop out /\
    transition_phase uid cmd rest env (Some gid) (List.filter noisy t) out.
Proof.
  unfold main_transition, setgid, setuid, execvp, err, exit, stop, bind, emit, ret.
  simpl.
  destruct (w_setgid_ok w gid); simpl.
  2:{ intros [= <- <-]. eexists. split; [reflexivity|]. left. auto. }
  destruct (w_setuid_ok w uid); simpl.
  2:{ intros [= <- <-]. eexists. split; [reflexivity|]. right. left. auto. }
  destruct (w_execvp_ok w cmd (cmd :: rest)); simpl;
    intros [= <- <-]; eexists; (split; [reflexivity|]); right; right; auto.
Qed.

Lemma main_shape (w : World) (fuel : nat) (argv0 spec cmd : string)
  (rest : list string) (user : string) (group : option string)
  (tr : list event) (out : outcome) :
  split_spec spec = (user, group) ->
  run w fuel argv0 (spec :: cmd :: rest) = (tr, out) ->
  exists t0 r0,
    main_resolve_user w user (w_getuid w) (w_getgid w) (w_environ w) = (t0, r0) /\
    ((r0 = Stop (Exited 1) /\ List.filter noisy tr = [] /\ out = Exited 1) \/
     exists uid gid pw G T gid',
       r0 = Next (uid, gid, pw) (w_environ w) /\
       List.filter noisy tr = Setenv "HOME" (home_of pw) :: G ++ T /\
       group_phase w group gid pw G gid' /\
       transition_phase uid cmd rest
         (<["HOME" := home_of pw]> (w_environ w)) gid' T out).
Proof.
  intros Hsplit Hrun. unfold run, main in Hrun.
  rewrite (bind_next _ _ _ _ [Getuid] (w_getuid w) eq_refl) in Hrun.
  rewrite (bind_next _ _ _ _ [Getgid] (w_getgid w) eq_refl) in Hrun.
  rewrite Hsplit in Hrun. cbv beta iota in Hrun.
  destruct (main_resolve_user w user (w_getuid w) (w_getgid w) (w_environ w))
    as [t0 r0] eqn:E0.
  exists t0, r0. split; [reflexivity|].
  destruct (resolve_user_run _ _ _ _ _ _ _ E0) as [Hq0 [-> | ([[uid gid] pw] & ->)]].
  { rewrite (bind_stop _ _ _ _ _ E0) in Hrun. simpl in Hrun.
    injection Hrun as <- <-. left. simpl. auto. }
  right. exists uid, gid, pw.
  rewrite (bind_next _ _ _ _ _ _ E0) in Hrun. cbv beta iota in Hrun.
  set (env1 := <["HOME" := home_of pw]> (w_environ w)).
  rewrite (bind_next _ _ _ env1 [Setenv "HOME" (home_of pw)] tt eq_refl) in Hrun.
  match type of Hrun with
  | context [bind (main_explicit_groups w group gid pw) ?f env1] =>
      destruct (bind (main_explicit_groups w group gid pw) f env1)
        as [t1 r1] eqn:E1
  end.
  cbn [fst snd] in Hrun.
  assert (Hgoal : exists G T gid' o,
            List.filter noisy t1 = G ++ T /\ r1 = Stop o /\
            group_phase w group gid pw G gid' /\
            transition_phase uid cmd rest env1 gid' T o).
  { apply bind_inv in E1 as [(te & [gid1 pw1] & enve & t2 & Ee & E2 & ->) | (o & Ee & ->)].
    - (* the explicit-group block went through *)
      assert (Hcase :
        (exists g, group = Some g /\ g <> EmptyString) \/
        (group = None \/ group = Some EmptyString)).
      { destruct group as [[|c g]|]; [auto | left; eexists; split; [reflexivity | discriminate] | auto]. }
      destruct Hcase as [(g & -> & Hg) | Hnone].
      + apply (explicit_groups_run _ _ _ _ _ _ _ Hg) in Ee
          as [[_ [?|?]] | (l & Hl & Hfrom & [? | (tok & x & Hhd & Hx & [= -> -> ->])])];
          try discriminate.
        cbn [main_grouplist] in E2.
        rewrite (bind_next _ _ _ _ [] tt eq_refl) in E2.
        destruct (main_transition w uid x cmd (cmd :: rest) env1) as [t3 r3] eqn:E3.
        injection E2 as <- <-.
        apply transition_run in E3 as (o & -> & Htr).
        exists [Setgroups (Z.of_nat (str_occurrences g "," + 1)) l], (List.filter noisy t3), (Some x), o.
        rewrite !List.filter_app, Hl. simpl. repeat split; auto.
        apply gp_explicit; auto. intros y [= <-]. eauto.
      + assert (Ee' : main_explicit_groups w group gid pw env1 = ([], Next (gid, pw) env1))
          by (destruct Hnone as [-> | ->]; reflexivity).
        rewrite Ee' in Ee. injection Ee as <- <- <- <-.
        apply bind_inv in E2 as [(tl & [] & envl & t3 & El & E3 & ->) | (o & El & ->)].
        * apply transition_run in E3 as Htr.
          destruct pw as [p|].
          -- apply grouplist_loop_run in El as Hl.
             destruct Hl as (q & sg & Hl & Hq & [(_ & [?|?]) | (n & l & -> & [[= <-] | ?])]);
               try discriminate.
             destruct Htr as (o & -> & Htr).
             exists (q ++ [Setgroups n l]), (List.filter noisy t3), (Some gid), o.
             rewrite !List.filter_app, Hl. simpl. repeat split; auto.
             apply gp_derived; auto.
          -- injection El as <- <-. destruct Htr as (o & -> & Htr).
             exists [], (List.filter noisy t3), (Some gid), o.
             repeat split; auto. apply gp_inherit; auto.
        * destruct pw as [p|]; [|discriminate El].
          apply grouplist_loop_run in El as (q & sg & Hl & Hq & [(-> & Ho) | (n & l & -> & [? | Ho])]);
            try discriminate.
          -- exists q, [], None, o. rewrite app_nil_r in Hl |- *.
             repeat split; auto.
             ++ apply gp_derived_stop; auto.
             ++ destruct Ho as [[= <-] | [= <-]]; auto.
          -- injection Ho as ->. exists (q ++ [Setgroups n l]), [], None, (Exited 1).
             rewrite app_nil_r. repeat split; auto. apply gp_derived; auto.
    - (* the explicit-group block ended the process *)
      destruct group as [[|c g]|]; try discriminate Ee.
      assert (Hg : String c g <> EmptyString) by discriminate.
      apply (explicit_groups_run _ _ _ _ _ _ _ Hg) in Ee
        as [[Hq [Ho | Ho]] | (l & Hl & Hfrom & [Ho | (? & ? & _ & _ & ?)])];
        try discriminate.
      + injection Ho as ->. exists [], [], None, (Exited 1). repeat split; auto.
        apply gp_explicit_stop. discriminate.
      + injection Ho as ->. exists [], [], None, Crashed. repeat split; auto.
        apply gp_explicit_stop. discriminate.
      + injection Ho as ->.
        exists [Setgroups (Z.of_nat (str_occurrences (String c g) "," + 1)) l],
          [], None, (Exited 1).
        rewrite app_nil_r. repeat split; auto.
        apply gp_explicit; [discriminate | exact Hfrom | discriminate]. }
  destruct Hgoal as (G & T & gid' & o & Ht1 & -> & Hgp & Htp).
  injection Hrun as <- <-.
  exists G, T, gid'. split; [reflexivity|].
  split; [|split; assumption].
  cbn [List.filter noisy quiet negb app]. rewrite !List.filter_app, Hq0.
  cbn [List.filter noisy quiet negb app]. rewrite Ht1. reflexivity.
Qed.

(** ** Order of the transition *)

Lemma filter_idchange_noisy (t : list event) :
  List.filter is_idchange (List.filter noisy t) = List.filter is_idchange t.
Proof.
  induction t as [|e t IH]; [reflexivity|].
  destruct e; simpl; rewrite ?IH; reflexivity.
Qed.


(** [main] phase by phase. *)
Lemma run_unfold (w : World) (fuel : nat) (argv0 spec cmd : string)
  (rest : list string) :
  run w fuel argv0 (spec :: cmd :: rest) =
    let '(user, group) := split_spec spec in
    match main_resolve_user w user (w_getuid w) (w_getgid w) (w_environ w) with
    | (t0, Stop o) => (Getuid :: Getgid :: t0, o)
    | (t0, Next (uid, gid, pw) env0) =>
        let env1 := <["HOME" := home_of pw]> env0 in
        match main_explicit_groups w group gid pw env1 with
        | (t1, Stop o) =>
            (Getuid :: Getgid :: t0 ++ Setenv "HOME" (home_of pw) :: t1, o)
        | (t1, Next (gid', pw') env2) =>
            match main_grouplist w fuel pw' gid' env2 with
            | (t2, Stop o) =>
                (Getuid :: Getgid :: t0 ++ Setenv "HOME" (home_of pw)
                   :: t1 ++ t2, o)
            | (t2, Next _ env3) =>
                match main_transition w uid gid' cmd (cmd :: rest) env3 with
                | (t3, Stop o) =>
                    (Getuid :: Getgid :: t0 ++ Setenv "HOME" (home_of pw)
                       :: t1 ++ t2 ++ t3, o)
                | (t3, Next _ _) =>
                    (Getuid :: Getgid :: t0 ++ Setenv "HOME" (home_of pw)
                       :: t1 ++ t2 ++ t3, Exited 1)
                end
            end
        end
    end.
Proof.
  unfold run, main, bind, getuid, getgid, setenv, emit, ret, bind. simpl.
  destruct (split_spec spec) as [user group].
  destruct (main_resolve_user w user (w_getuid w) (w_getgid w) (w_environ w))
    as [t0 [[[uid gid] pw] env0|o]]; [|reflexivity].
  unfold home_of. simpl.
  destruct (main_explicit_groups w group gid pw _) as [t1 [[gid' pw'] env2|o]];
    [|reflexivity].
  destruct (main_grouplist w fuel pw' gid' env2) as [t2 [[] env3|o]];
    [|reflexivity].
  destruct (main_transition w uid gid' cmd (cmd :: rest) env3) as [t3 [[] ?|o]];
    reflexivity.
Qed.




(** ** An explicit group *)

Lemma in_noisy (e : event) (t : list event) :
  In e t -> noisy e = true -> In e (List.filter noisy t).
Proof. intros. apply List.filter_In. auto. Qed.

Lemma in_queries (e : event) (q : list event) :
  Forall (fun e => is_getgrouplist e = true) q -> In e q ->
  is_getgrouplist e = true.
Proof. intros H. rewrite List.Forall_forall in H. apply H. Qed.

Lemma transition_phase_in (uid : Z) (cmd : string) (rest : list string)
  (env : gmap string string) (gid' : option Z) (T : list event)
  (out : outcome) (e : event) :
  transition_phase uid cmd rest env gid' T out -> In e T ->
  (exists g, gid' = Some g /\ e = Setgid g) \/ e = Setuid uid \/
  e = Execvp cmd (cmd :: rest).
Proof.
  unfold transition_phase. destruct gid' as [g|].
  - intros [[-> _] | [[-> _] | [-> _]]]; simpl; intuition eauto.
  - intros [-> _] [].
Qed.

(** With a non-empty group part the group-list query is never made and
    the gid given to [setgid] is the gid of the first group token. *)
Lemma explicit_group_precedence (w : World) (fuel : nat)
  (argv0 spec cmd : string) (rest : list string) (user group : string)
  (tr : list event) (out : outcome) :
  split_spec spec = (user, Some group) -> group <> EmptyString ->
  run w fuel argv0 (spec :: cmd :: rest) = (tr, out) ->
  (forall name gid n, ~ In (Getgrouplist name gid n) tr) /\
  (forall g, In (Setgid g) tr ->
     exists tok, head (tokens "," group) = Some tok /\
                 gid_of_token w tok = Some g) /\
  (forall file argv env, out = Replaced file argv env ->
     exists l g u tok,
       List.filter is_idchange tr
         = [Setgroups (Z.of_nat (str_occurrences group "," + 1)) l;
            Setgid g; Setuid u] /\
       head (tokens "," group) = Some tok /\ gid_of_token w tok = Some g).
Proof.
  intros Hsplit Hne Hrun.
  destruct (main_shape _ _ _ _ _ _ _ _ _ _ Hsplit Hrun)
    as (t0 & r0 & _ & [(_ & Htr & ->) | (uid & gid & pw & G & T & gid' & _ & Htr & Hgp & Htp)]).
  { assert (Hno : forall e, In e tr -> noisy e = true -> False).
    { intros e He Hn. apply in_noisy in He; [|exact Hn].
      rewrite Htr in He. destruct He. }
    split; [|split]; unfold not; intros; try discriminate;
      exfalso; eapply Hno; eauto. }
  assert (HG : G = [] /\ gid' = None \/
               exists l, G = [Setgroups (Z.of_nat (str_occurrences group "," + 1)) l] /\
                 from_tokens w (tokens "," group) l /\
                 (forall x, gid' = Some x ->
                    exists tok, head (tokens "," group) = Some tok /\
                                gid_of_token w tok = Some x)).
  { inversion Hgp; subst; eauto;
      match goal with H : _ \/ _ |- _ => destruct H; congruence end. }
  assert (Hin : forall e, In e tr -> noisy e = true ->
            e = Setenv "HOME" (home_of pw) \/ In e G \/
            (exists g, gid' = Some g /\ e = Setgid g) \/ e = Setuid uid \/
            e = Execvp cmd (cmd :: rest)).
  { intros e He Hn. apply in_noisy in He; [|exact Hn]. rewrite Htr in He.
    destruct He as [<- | He]; [auto|].
    apply in_app_or in He as [He | He]; [auto|].
    right. right. eapply transition_phase_in; eauto. }
  split; [|split].
  - intros name g n He. apply Hin in He; [|reflexivity].
    destruct He as [? | [He | [(? & _ & ?) | [? | ?]]]]; try discriminate.
    destruct HG as [[-> _] | (l & -> & _)]; [destruct He|].
    destruct He as [? | []]. discriminate.
  - intros g He. apply Hin in He; [|reflexivity].
    destruct He as [? | [He | [(x & Hx & [= ->]) | [? | ?]]]]; try discriminate.
    + destruct HG as [[-> _] | (l & -> & _)]; [destruct He|].
      destruct He as [? | []]. discriminate.
    + destruct HG as [[_ ?] | (l & _ & _ & Hhd)]; [congruence | auto].
  - intros file argv env ->. rewrite <- filter_idchange_noisy, Htr.
    destruct gid' as [g|]; simpl in Htp.
    2:{ destruct Htp as [_ [?|[?|?]]]; discriminate. }
    destruct Htp as [[_ ?] | [[_ ?] | [-> _]]]; try discriminate.
    destruct HG as [[_ ?] | (l & -> & _ & Hhd)]; [discriminate|].
    destruct (Hhd g eq_refl) as (tok & Htok & Hg).
    exists l, g, uid, tok. auto.
Qed.

(** C2 fails on a group part with an empty token.  For "root:100,,200"
    the group part does take precedence: no group list is queried for
    root, and [setgid] gets 100, the gid of the first token, not the gid
    0 of the record of root.  But the tokens are not the only source of
    the set: [strtok] yields the two tokens "100" and "200", while
    [setgroups] is given the three slots of line 113, the third as
    [malloc] left it. *)
Theorem C2_group_set_has_unwritten_slot :
  split_spec "root:100,,200" = ("root"%string, Some "100,,200"%string) /\
  tokens "," "100,,200" = ["100"; "200"]%string /\
  run w_demo 2 "su-exec" ["root:100,,200"; "id"]
    = ([Getuid; Getgid; Getpwnam "root"; Setenv "HOME" "/root";
        Setgroups 3 [Some 100; Some 200; None];
        Setgid 100; Setuid 0; Execvp "id" ["id"]],
       Replaced "id" ["id"] (<["HOME" := "/root"]> (w_environ w_demo))).
Proof. repeat split; vm_compute; reflexivity. Qed.

(** ** Defaults of an empty user, and a numeric uid without a record *)

Lemma shape_in (tr G T : list event) (pw : option passwd) (uid : Z)
  (cmd : string) (rest : list string) (env : gmap string string)
  (gid' : option Z) (out : outcome) (e : event) :
  List.filter noisy tr = Setenv "HOME" (home_of pw) :: G ++ T ->
  transition_phase uid cmd rest env gid' T out ->
  In e tr -> noisy e = true ->
  e = Setenv "HOME" (home_of pw) \/ In e G \/
  (exists g, gid' = Some g /\ e = Setgid g) \/ e = Setuid uid \/
  e = Execvp cmd (cmd :: rest).
Proof.
  intros Htr Htp He Hn. apply in_noisy in He; [|exact Hn]. rewrite Htr in He.
  destruct He as [<- | He]; [auto|].
  apply in_app_or in He as [He | He]; [auto|].
  right. right. eapply transition_phase_in; eauto.
Qed.

Lemma shape_replaced (tr G T : list event) (pw : option passwd) (uid : Z)
  (cmd : string) (rest : list string) (env : gmap string string)
  (gid' : option Z) (file : string) (argv : list string)
  (env' : gmap string string) :
  List.filter noisy tr = Setenv "HOME" (home_of pw) :: G ++ T ->
  transition_phase uid cmd rest env gid' T (Replaced file argv env') ->
  exists g, gid' = Some g /\
    T = [Setgid g; Setuid uid; Execvp cmd (cmd :: rest)] /\
    file = cmd /\ argv = cmd :: rest /\ env' = env /\
    In (Setgid g) tr /\ In (Setuid uid) tr.
Proof.
  intros Htr Htp. destruct gid' as [g|]; simpl in Htp.
  2:{ destruct Htp as [_ [?|[?|?]]]; discriminate. }
  destruct Htp as [[_ ?] | [[_ ?] | [-> [? | [= -> -> ->]]]]]; try discriminate.
  exists g. repeat split; try reflexivity.
  - apply (List.filter_In noisy). rewrite Htr.
    right. apply in_or_app. right. simpl. auto.
  - apply (List.filter_In noisy). rewrite Htr.
    right. apply in_or_app. right. simpl. auto.
Qed.

Lemma group_phase_events (w : World) (group : option string) (gid : Z)
  (pw : option passwd) (G : list event) (gid' : option Z) (e : event) :
  group_phase w group gid pw G gid' -> In e G ->
  is_getgrouplist e = true \/ exists n l, e = Setgroups n l.
Proof.
  intros Hgp He. inversion Hgp; subst.
  - destruct He.
  - destruct He as [<- | []]. eauto.
  - destruct He.
  - left. eapply in_queries; eauto.
  - apply in_app_or in He as [He | [<- | []]]; [|eauto].
    left. eapply in_queries; eauto.
Qed.

Lemma group_phase_inherit (w : World) (group : option string) (gid : Z)
  (pw : option passwd) (G : list event) (gid' : option Z) :
  group = None \/ group = Some EmptyString ->
  group_phase w group gid pw G gid' ->
  (forall x, gid' = Some x -> x = gid) /\
  (pw = None -> G = [] /\ gid' = Some gid).
Proof.
  intros Hnone Hgp.
  inversion Hgp; subst; try (destruct Hnone; congruence).
  - split; [congruence | auto].
  - split; [discriminate | discriminate].
  - split; [|discriminate].
    intros x ->. destruct H1; congruence.
Qed.

(** C3 (amended): with an empty user part, uid and gid start as the
    caller's [getuid()] and [getgid()] and are replaced by [pw_uid] and
    [pw_gid] of the caller's passwd record when [getpwuid(getuid())]
    finds one.  [setuid] gets that uid; without a group part [setgid]
    gets that gid.  They are [getuid()] and [getgid()] themselves when
    the caller has no record. *)
Theorem C3_empty_user_defaults (w : World) (fuel : nat)
  (argv0 spec cmd : string) (rest : list string) (group : option string)
  (tr : list event) (out : outcome) :
  split_spec spec = (EmptyString, group) ->
  run w fuel argv0 (spec :: cmd :: rest) = (tr, out) ->
  let uid := match w_getpwuid w (w_getuid w) with
             | Some p => pw_uid p | None => w_getuid w end in
  let gid := match w_getpwuid w (w_getuid w) with
             | Some p => pw_gid p | None => w_getgid w end in
  (forall u, In (Setuid u) tr -> u = uid) /\
  (group = None \/ group = Some EmptyString ->
     forall g, In (Setgid g) tr -> g = gid) /\
  (forall file argv env, out = Replaced file argv env ->
     In (Setuid uid) tr /\
     (group = None \/ group = Some EmptyString -> In (Setgid gid) tr)).
Proof.
  intros Hsplit Hrun uid gid.
  destruct (main_shape _ _ _ _ _ _ _ _ _ _ Hsplit Hrun)
    as (t0 & r0 & E0 & [(-> & _) | (uid1 & gid1 & pw & G & T & gid' & -> & Htr & Hgp & Htp)]).
  { rewrite resolve_user_empty in E0.
    destruct (w_getpwuid w (w_getuid w)); discriminate. }
  assert (Hids : uid1 = uid /\ gid1 = gid).
  { rewrite resolve_user_empty in E0. subst uid gid.
    destruct (w_getpwuid w (w_getuid w)); injection E0 as _ <- <- _; auto. }
  destruct Hids as [-> ->].
  split; [|split].
  - intros u He.
    destruct (shape_in _ _ _ _ _ _ _ _ _ _ _ Htr Htp He eq_refl)
      as [? | [HG | [(? & _ & ?) | [[= ->] | ?]]]]; try discriminate; [|reflexivity].
    destruct (group_phase_events _ _ _ _ _ _ _ Hgp HG) as [? | (? & ? & ?)];
      discriminate.
  - intros Hnone g He.
    destruct (shape_in _ _ _ _ _ _ _ _ _ _ _ Htr Htp He eq_refl)
      as [? | [HG | [(x & Hx & [= ->]) | [? | ?]]]]; try discriminate.
    + destruct (group_phase_events _ _ _ _ _ _ _ Hgp HG) as [? | (? & ? & ?)];
        discriminate.
    + apply (group_phase_inherit _ _ _ _ _ _ Hnone Hgp). exact Hx.
  - intros file argv env ->.
    destruct (shape_replaced _ _ _ _ _ _ _ _ _ _ _ _ Htr Htp)
      as (g & Hg & _ & _ & _ & _ & Hgin & Huin).
    split; [exact Huin|]. intros Hnone.
    rewrite <- (proj1 (group_phase_inherit _ _ _ _ _ _ Hnone Hgp) g Hg).
    exact Hgin.
Qed.

Lemma C3_defaults_witness :
  In (Setuid 0) (fst (run w_demo 2 "su-exec" [":"; "id"])) /\
  (Some EmptyString = None \/ Some EmptyString = Some EmptyString ->
   In (Setgid 0) (fst (run w_demo 2 "su-exec" [":"; "id"]))).
Proof.
  refine (proj2 (proj2
            (C3_empty_user_defaults w_demo 2 "su-exec" ":" "id" []
               (Some EmptyString)
               (fst (run w_demo 2 "su-exec" [":"; "id"]))
               (snd (run w_demo 2 "su-exec" [":"; "id"])) _ _))
            "id" ["id"] (<["HOME" := "/root"]> (w_environ w_demo)) _).
  - reflexivity.
  - vm_compute. reflexivity.
  - vm_compute. reflexivity.
Defined.

(** C3 as stated fails: the caller runs as uid 0 with gid 1000 and root's
    record has gid 0; with an empty user part [setgid] gets 0, the gid of
    the record, not the caller's 1000. *)
Lemma C3_counterexample :
  split_spec ":" = (EmptyString, Some EmptyString) /\
  run w_demo 2 "su-exec" [":"; "id"]
    = ([Getuid; Getgid; Getpwuid 0; Setenv "HOME" "/root";
        Getgrouplist "root" 0 0; Getgrouplist "root" 0 2;
        Setgroups 2 [Some 0; Some 10]; Setgid 0; Setuid 0;
        Execvp "id" ["id"]],
       Replaced "id" ["id"] (<["HOME" := "/root"]> (w_environ w_demo))) /\
  w_getgid w_demo = 1000 /\
  ~ (forall g, In (Setgid g) (fst (run w_demo 2 "su-exec" [":"; "id"])) ->
               g = w_getgid w_demo).
Proof.
  split; [reflexivity|]. split; [vm_compute; reflexivity|].
  split; [reflexivity|].
  intros H. specialize (H 0). discriminate H.
  vm_compute. tauto.
Qed.

(** C10: a numeric uid without a passwd record and no group part:
    [setgroups] is never called and the group list is never queried, so
    the caller's supplementary groups stay; [setgid] gets the caller's
    gid and [setuid] the numeric uid, and on a run that reaches the exec
    these two are all the changes of identity. *)
Theorem C10_numeric_uid_without_record (w : World) (fuel : nat)
  (argv0 spec cmd : string) (rest : list string) (user : string)
  (group : option string) (tr : list event) (out : outcome) :
  split_spec spec = (user, group) ->
  user <> EmptyString -> snd (strtol user) = EmptyString ->
  w_getpwuid w (to_id (fst (strtol user))) = None ->
  group = None \/ group = Some EmptyString ->
  run w fuel argv0 (spec :: cmd :: rest) = (tr, out) ->
  (forall n l, ~ In (Setgroups n l) tr) /\
  (forall name g n, ~ In (Getgrouplist name g n) tr) /\
  (forall g, In (Setgid g) tr -> g = w_getgid w) /\
  (forall u, In (Setuid u) tr -> u = to_id (fst (strtol user))) /\
  (forall file argv env, out = Replaced file argv env ->
     List.filter is_idchange tr
       = [Setgid (w_getgid w); Setuid (to_id (fst (strtol user)))]).
Proof.
  intros Hsplit Hne Hnum Hnopw Hnone Hrun.
  destruct (main_shape _ _ _ _ _ _ _ _ _ _ Hsplit Hrun)
    as (t0 & r0 & E0 & [(-> & _) | (uid & gid & pw & G & T & gid' & -> & Htr & Hgp & Htp)]).
  { rewrite (resolve_user_number _ _ _ _ _ Hne Hnum), Hnopw in E0. discriminate. }
  rewrite (resolve_user_number _ _ _ _ _ Hne Hnum), Hnopw in E0.
  injection E0 as _ <- <- <-.
  destruct (proj2 (group_phase_inherit _ _ _ _ _ _ Hnone Hgp) eq_refl) as [-> ->].
  assert (Hin : forall e, In e tr -> noisy e = true ->
            e = Setenv "HOME" "/" \/ e = Setgid (w_getgid w) \/
            e = Setuid (to_id (fst (strtol user))) \/
            e = Execvp cmd (cmd :: rest)).
  { intros e He Hn.
    destruct (shape_in _ _ _ _ _ _ _ _ _ _ _ Htr Htp He Hn)
      as [? | [[] | [(x & [= <-] & ?) | [? | ?]]]]; auto. }
  split; [|split; [|split; [|split]]].
  - intros n l He. apply Hin in He; [|reflexivity].
    destruct He as [? | [? | [? | ?]]]; discriminate.
  - intros name g n He. apply Hin in He; [|reflexivity].
    destruct He as [? | [? | [? | ?]]]; discriminate.
  - intros g He. apply Hin in He; [|reflexivity].
    destruct He as [? | [[= ->] | [? | ?]]]; try discriminate. reflexivity.
  - intros u He. apply Hin in He; [|reflexivity].
    destruct He as [? | [? | [[= ->] | ?]]]; try discriminate. reflexivity.
  - intros file argv env ->.
    destruct (shape_replaced _ _ _ _ _ _ _ _ _ _ _ _ Htr Htp)
      as (g & [= <-] & -> & _).
    rewrite <- filter_idchange_noisy, Htr. reflexivity.
Qed.

Lemma C10_numeric_uid_witness :
  List.filter is_idchange (fst (run w_demo 2 "su-exec" ["1234"; "id"]))
    = [Setgid 1000; Setuid 1234].
Proof.
  refine (proj2 (proj2 (proj2 (proj2
            (C10_numeric_uid_without_record w_demo 2 "su-exec" "1234" "id"
               [] "1234" None
               (fst (run w_demo 2 "su-exec" ["1234"; "id"]))
               (snd (run w_demo 2 "su-exec" ["1234"; "id"]))
               _ _ _ _ _ _))))
            "id" ["id"] (<["HOME" := "/"]> (w_environ w_demo)) _).
  - reflexivity.
  - discriminate.
  - reflexivity.
  - reflexivity.
  - left. reflexivity.
  - vm_compute. reflexivity.
  - vm_compute. reflexivity.
Defined.

(** ** The environment *)

Lemma filter_setenv_exec_noisy (t : list event) :
  List.filter is_setenv_or_exec (List.filter noisy t)
  = List.filter is_setenv_or_exec t.
Proof.
  induction t as [|e t IH]; [reflexivity|].
  destruct e; simpl; rewrite ?IH; reflexivity.
Qed.

Lemma group_phase_no_setenv_exec (w : World) (group : option string)
  (gid : Z) (pw : option passwd) (G : list event) (gid' : option Z) :
  group_phase w group gid pw G gid' -> List.filter is_setenv_or_exec G = [].
Proof.
  intros Hgp.
  assert (H : forall e, In e G -> is_setenv_or_exec e = false).
  { intros e He.
    destruct (group_phase_events _ _ _ _ _ _ _ Hgp He) as [H | (? & ? & ->)];
      [destruct e; try discriminate H|]; reflexivity. }
  clear Hgp. induction G as [|e G IH]; [reflexivity|].
  simpl. rewrite (H e) by (left; reflexivity).
  apply IH. intros e' He'. apply H. right. exact He'.
Qed.

(** C8: on every run that reaches the exec, [HOME] is set exactly once,
    before the exec, to the home directory of the passwd record that was
    resolved, or to "/" without one; the new image gets that [HOME],
    whatever it was before, and every other variable as it was. *)
Theorem C8_home_is_set (w : World) (fuel : nat) (argv0 : string)
  (args : list string) (tr : list event) (file : string)
  (argv : list string) (env : gmap string string) :
  run w fuel argv0 args = (tr, Replaced file argv env) ->
  exists spec rest user group t0 uid gid pw,
    args = spec :: file :: rest /\ argv = file :: rest /\
    split_spec spec = (user, group) /\
    main_resolve_user w user (w_getuid w) (w_getgid w) (w_environ w)
      = (t0, Next (uid, gid, pw) (w_environ w)) /\
    List.filter is_setenv_or_exec tr
      = [Setenv "HOME" (home_of pw); Execvp file argv] /\
    env !! "HOME"%string = Some (home_of pw) /\
    (forall name, name <> "HOME"%string -> env !! name = w_environ w !! name).
Proof.
  intros Hrun.
  destruct args as [|spec [|cmd rest]];
    try (rewrite run_usage in Hrun by (simpl; lia); discriminate).
  destruct (split_spec spec) as [user group] eqn:Hsplit.
  destruct (main_shape _ _ _ _ _ _ _ _ _ _ Hsplit Hrun)
    as (t0 & r0 & E0 & [(_ & _ & ?) | (uid & gid & pw & G & T & gid' & -> & Htr & Hgp & Htp)]);
    [discriminate|].
  destruct (shape_replaced _ _ _ _ _ _ _ _ _ _ _ _ Htr Htp)
    as (g & -> & -> & -> & -> & -> & _).
  exists spec, rest, user, group, t0, uid, gid, pw.
  repeat split; try assumption.
  - rewrite <- filter_setenv_exec_noisy, Htr. simpl.
    rewrite List.filter_app, (group_phase_no_setenv_exec _ _ _ _ _ _ Hgp).
    reflexivity.
  - apply lookup_insert_eq.
  - intros name Hname. apply lookup_insert_ne. congruence.
Qed.

Lemma C8_home_witness :
  exists pw,
    List.filter is_setenv_or_exec (fst (run w_demo 2 "su-exec" ["65534"; "env"]))
      = [Setenv "HOME" (home_of pw); Execvp "env" ["env"]].
Proof.
  destruct (C8_home_is_set w_demo 2 "su-exec" ["65534"; "env"]
              (fst (run w_demo 2 "su-exec" ["65534"; "env"]))
              "env" ["env"] (<["HOME" := "/"]> (w_environ w_demo)))
    as (spec & rest & user & group & t0 & uid & gid & pw & _ & _ & _ & _ & H & _).
  - vm_compute. reflexivity.
  - exists pw. exact H.
Defined.

(** ** The retry loop around [getgrouplist] *)

Lemma grouplist_loop_spins (fuel k : nat) (name : string) (gid : Z)
  (glist : list slot) (n : Z) (env : gmap string string) :
  snd (main_grouplist_loop w_spin fuel k name gid glist n env) = Stop Spinning.
Proof.
  revert k glist n.
  induction fuel as [|fuel IH]; intros k glist n; [reflexivity|].
  cbn [main_grouplist_loop].
  rewrite (bind_next _ _ env env [Getgrouplist name gid n] tt eq_refl).
  cbn [snd w_getgrouplist w_spin w_realloc_ok]. cbv beta iota.
  change (0 <=? -1) with false. change (0 <? 1) with true.
  rewrite orb_true_r. cbv iota. apply IH.
Qed.

(** C7 as stated fails: the loop has no bound on its rounds.  On a system
    whose query keeps failing, every round allocates the one slot asked
    for and queries again: [su-exec root id] never leaves the loop,
    however many rounds it is given. *)
Lemma C7_counterexample :
  ~ (exists fuel, snd (run w_spin fuel "su-exec" ["root"; "id"]) <> Spinning).
Proof.
  intros [fuel H]. apply H. clear H.
  rewrite run_unfold.
  change (split_spec "root") with ("root"%string, @None string).
  cbv beta iota.
  change (main_resolve_user w_spin "root" (w_getuid w_spin) (w_getgid w_spin)
            (w_environ w_spin))
    with ([Getpwnam "root"], Next (0, 0, Some root_pw) (∅ : gmap string string)).
  cbv beta iota zeta.
  change (main_explicit_groups w_spin None 0 (Some root_pw)
            (<["HOME" := home_of (Some root_pw)]> ∅))
    with (@nil event,
          Next (0, Some root_pw) (<["HOME" := home_of (Some root_pw)]> ∅)).
  cbv beta iota. cbn [main_grouplist].
  pose proof (grouplist_loop_spins fuel O (pw_name root_pw) 0 []
                0 (<["HOME" := home_of (Some root_pw)]> ∅)) as Hs.
  destruct (main_grouplist_loop w_spin fuel O (pw_name root_pw) 0 [] 0
              (<["HOME" := home_of (Some root_pw)]> ∅)) as [t r].
  simpl in Hs. subst r. reflexivity.
Qed.

(** C7 (amended): when the query is consistent, writes inside the block
    it is given, and the allocation of as many slots as the user has
    groups succeeds, the loop is over after at most two queries,
    whatever the size of the buffer it starts with, and the first slots
    of what [setgroups] gets are the groups of the user.  A first buffer
    that is large enough is used as it is.  One that is too small, as
    the empty one of line 134, is replaced by a block of exactly as many
    slots as the query reported, the second query is told that size, and
    [setgroups] gets that block with the groups of the user in it and
    nothing else. *)
Theorem C7_retry_loop_consistent (w : World) (name : string) (gid : Z)
  (members : list Z) (n0 fuel : nat) (env : gmap string string) :
  consistent_grouplist w name gid members ->
  grouplist_in_block w name gid ->
  w_realloc_ok w O (Z.of_nat (length members)) = true ->
  (2 <= fuel)%nat ->
  exists q buf,
    main_grouplist_loop w fuel O name gid (replicate n0 None) (Z.of_nat n0) env
      = (if w_setgroups_ok w (Z.of_nat (length members)) buf
         then (q ++ [Setgroups (Z.of_nat (length members)) buf], Next tt env)
         else (q ++ [Setgroups (Z.of_nat (length members)) buf;
                     Stderr "setgroups" ArgNone], Stop (Exited 1))) /\
    take (length members) buf = Some <$> members /\
    (((length members <= n0)%nat /\
      q = [Getgrouplist name gid (Z.of_nat n0)] /\
      length buf = n0) \/
     ((n0 < length members)%nat /\
      q = [Getgrouplist name gid (Z.of_nat n0);
           Getgrouplist name gid (Z.of_nat (length members))] /\
      buf = Some <$> members)).
Proof.
  intros Hcons Hblock Hrealloc Hfuel.
  destruct fuel as [|[|fuel]]; try lia. clear Hfuel.
  cbn [main_grouplist_loop].
  rewrite (bind_next _ _ env env [Getgrouplist name gid (Z.of_nat n0)] tt eq_refl).
  pose proof (Hcons O (replicate n0 None) (Z.of_nat n0)) as H1.
  pose proof (Hblock O (replicate n0 None) (Z.of_nat n0)) as Hlen1.
  rewrite length_replicate in Hlen1. specialize (Hlen1 ltac:(lia)).
  destruct (w_getgrouplist w O name gid (replicate n0 None) (Z.of_nat n0))
    as [[r1 n1] buf1].
  cbn [snd] in Hlen1.
  destruct H1 as [-> H1].
  destruct (Z.leb_spec (Z.of_nat (length members)) (Z.of_nat n0)) as [Hle | Hgt].
  - (* the first buffer is large enough *)
    destruct H1 as [Hr Hbuf]. apply Z.leb_le in Hr. rewrite Hr.
    exists [Getgrouplist name gid (Z.of_nat n0)], buf1.
    split; [|split; [exact Hbuf | left; repeat split; [lia | exact Hlen1]]].
    unfold setgroups, bind, emit, ret. simpl.
    destruct (w_setgroups_ok w (Z.of_nat (length members)) buf1); reflexivity.
  - (* too small: one more round with as many slots as were reported *)
    apply Z.leb_gt in H1. rewrite H1, Hrealloc.
    rewrite (bind_next _ _ env env
               [Getgrouplist name gid (Z.of_nat (length members))] tt eq_refl).
    assert (Hsize : length (resize buf1 (Z.of_nat (length members)))
                    = length members).
    { unfold resize. rewrite Nat2Z.id, length_app, length_take, length_replicate.
      lia. }
    pose proof (Hcons 1%nat (resize buf1 (Z.of_nat (length members)))
                  (Z.of_nat (length members))) as H2.
    pose proof (Hblock 1%nat (resize buf1 (Z.of_nat (length members)))
                  (Z.of_nat (length members))) as Hlen2.
    rewrite Hsize in Hlen2. specialize (Hlen2 ltac:(lia)).
    destruct (w_getgrouplist w 1 name gid (resize buf1 (Z.of_nat (length members)))
                (Z.of_nat (length members))) as [[r2 n2] buf2].
    cbn [snd] in Hlen2.
    destruct H2 as [-> H2]. rewrite Z.leb_refl in H2.
    destruct H2 as [Hr Hbuf]. apply Z.leb_le in Hr. rewrite Hr.
    exists [Getgrouplist name gid (Z.of_nat n0);
            Getgrouplist name gid (Z.of_nat (length members))], buf2.
    split; [|split; [exact Hbuf | right; repeat split; [lia|]]].
    + unfold setgroups, bind, emit, ret. simpl.
      destruct (w_setgroups_ok w (Z.of_nat (length members)) buf2); reflexivity.
    + rewrite <- Hbuf. symmetry. apply take_ge. lia.
Qed.

Lemma w_demo_consistent : consistent_grouplist w_demo "root" 0 [0; 10].
Proof.
  intros k buf n. unfold w_demo, w_getgrouplist.
  change (Z.of_nat (length [0; 10])) with 2.
  destruct (2 <=? n); (split; [reflexivity|]).
  - split; [discriminate | reflexivity].
  - reflexivity.
Defined.

Lemma w_demo_in_block : grouplist_in_block w_demo "root" 0.
Proof.
  intros k buf n Hn. unfold w_demo, w_getgrouplist. unfold slot in *.
  destruct (Z.leb_spec 2 n); cbn [snd].
  - rewrite length_app, length_drop.
    change (length [Some 0; Some 10]) with 2%nat. lia.
  - rewrite length_app, length_take, length_drop.
    change (length [Some 0; Some 10]) with 2%nat. lia.
Defined.

Lemma C7_retry_loop_witness :
  exists q buf,
    main_grouplist_loop w_demo 2 O "root" 0 (replicate O None) (Z.of_nat O) ∅
      = (if w_setgroups_ok w_demo (Z.of_nat (length [0; 10])) buf
         then (q ++ [Setgroups (Z.of_nat (length [0; 10])) buf], Next tt ∅)
         else (q ++ [Setgroups (Z.of_nat (length [0; 10])) buf;
                     Stderr "setgroups" ArgNone], Stop (Exited 1))) /\
    take (length [0; 10]) buf = Some <$> [0; 10] /\
    (((length [0; 10] <= O)%nat /\
      q = [Getgrouplist "root" 0 (Z.of_nat O)] /\
      length buf = O) \/
     ((O < length [0; 10])%nat /\
      q = [Getgrouplist "root" 0 (Z.of_nat O);
           Getgrouplist "root" 0 (Z.of_nat (length [0; 10]))] /\
      buf = Some <$> [0; 10])).
Proof.
  apply (C7_retry_loop_consistent w_demo "root" 0 [0; 10] O 2 ∅).
  - exact w_demo_consistent.
  - exact w_demo_in_block.
  - reflexivity.
  - lia.
Defined.

(** ** A list of groups *)

(** [strtok] never yields more tokens than there are commas, plus one:
    the writes of line 123 stay inside the block of line 113. *)
Lemma span_token_occurrences (d : ascii) (s : string) :
  snd (span_token d s) = EmptyString \/
  str_occurrences s d = S (str_occurrences (snd (span_token d s)) d).
Proof.
  induction s as [|c s IH]; simpl; [auto|].
  destruct (Ascii.eqb c d); simpl; [auto|].
  destruct (span_token d s) as [t save]; simpl in *. exact IH.
Qed.

Lemma skip_delim_occurrences (d : ascii) (s : string) :
  (str_occurrences (skip_delim d s) d <= str_occurrences s d)%nat.
Proof.
  induction s as [|c s IH]; simpl; [lia|].
  destruct (Ascii.eqb c d) eqn:E; simpl; [lia | rewrite E; lia].
Qed.

Lemma tokens_count_le (d : ascii) (s : string) :
  (length (tokens d s) <= str_occurrences s d + 1)%nat.
Proof.
  remember (String.length s) as n eqn:Hn.
  revert s Hn. induction n as [n IH] using lt_wf_ind. intros s ->.
  rewrite tokens_unfold.
  destruct (strtok d s) as [[t save]|] eqn:E; [|simpl; lia].
  pose proof (strtok_shorter _ _ _ _ E) as Hlt.
  specialize (IH _ Hlt save eq_refl).
  unfold strtok in E. pose proof (skip_delim_occurrences d s) as Hocc.
  destruct (skip_delim d s) as [|c r] eqn:Hskip; [discriminate|].
  injection E as E. change (span_token d (String c r) = (t, save)) in E.
  pose proof (span_token_occurrences d (String c r)) as Hspan.
  rewrite E in Hspan. cbn [snd] in Hspan. cbn [length].
  destruct Hspan as [-> | Hspan].
  - rewrite (tokens_unfold d EmptyString). simpl. lia.
  - lia.
Qed.

Lemma fill_gidlist_in_bounds (w : World) (toks : list string) :
  forall (i : nat) (l : list slot) (env : gmap string string),
  (S i + length toks <= length l)%nat ->
  snd (main_fill_gidlist w toks i l env) <> Stop Crashed.
Proof.
  induction toks as [|token toks IH]; intros i l env Hlen; [discriminate|].
  cbn [main_fill_gidlist]. simpl length in Hlen.
  destruct (get_gid_run w token env) as (tg & Eg & _).
  destruct (gid_of_token w token) as [g|].
  - rewrite (bind_next _ _ _ _ _ _ Eg). cbn [snd].
    destruct (Nat.ltb_spec (S i) (length l)) as [Hi|]; [|lia].
    apply IH. rewrite length_insert. lia.
  - rewrite (bind_stop _ _ _ _ _ Eg). discriminate.
Qed.

(** The explicit-group block crashes only on the NULL token of a group
    part made of commas alone. *)
Lemma explicit_groups_crash (w : World) (g : string) (gid : Z)
  (pw : option passwd) (env : gmap string string) :
  snd (main_explicit_groups w (Some g) gid pw env) = Stop Crashed ->
  strtok "," g = None.
Proof.
  destruct g as [|c0 g0]; [discriminate|].
  unfold main_explicit_groups. cbv beta iota zeta.
  remember (String c0 g0) as g eqn:Hgdef. clear Hgdef c0 g0.
  destruct (Nat.eqb_spec (str_occurrences g "," + 1) 1) as [Hone | Hmany].
  - destruct (get_gid_run w g env) as (tg & Eg & _).
    destruct (gid_of_token w g) as [x|].
    + rewrite (bind_next _ _ _ _ _ _ Eg).
      unfold setgroups, bind, emit, ret, err, exit, stop. simpl.
      destruct (w_setgroups_ok w 1 [Some x]); discriminate.
    + rewrite (bind_stop _ _ _ _ _ Eg). discriminate.
  - pose proof (tokens_count_le "," g) as Hcnt.
    rewrite tokens_unfold in Hcnt.
    destruct (strtok "," g) as [[token save]|]; [|reflexivity].
    simpl in Hcnt. intros Hcrash. exfalso.
    destruct (get_gid_run w token env) as (tg & Eg & _).
    destruct (gid_of_token w token) as [x|].
    2:{ rewrite (bind_stop _ _ _ _ _ Eg) in Hcrash. discriminate. }
    rewrite (bind_next _ _ _ _ _ _ Eg) in Hcrash. cbn [snd] in Hcrash.
    set (l0 := <[O := Some x]> (replicate (str_occurrences g "," + 1) None) : list slot) in *.
    pose proof (fill_gidlist_in_bounds w (tokens "," save) O l0 env) as Hfill.
    destruct (main_fill_gidlist w (tokens "," save) O l0 env) as [tf [l' env'|o]] eqn:Ef.
    + rewrite (bind_next _ _ _ _ _ _ Ef) in Hcrash.
      unfold setgroups, bind, emit, ret, err, exit, stop in Hcrash.
      simpl in Hcrash.
      destruct (w_setgroups_ok w _ l'); discriminate.
    + rewrite (bind_stop _ _ _ _ _ Ef) in Hcrash.
      apply Hfill; [|simpl in Hcrash |- *; congruence].
      subst l0. rewrite length_insert, length_replicate. lia.
Qed.

(** When every token has a gid and the block is long enough, lines
    119-125 write the gids of the tokens, in order, after slot [i]. *)
Lemma fill_gidlist_exact (w : World) (toks : list string) (gids : list Z) :
  Forall2 (fun tok g => gid_of_token w tok = Some g) toks gids ->
  forall (i : nat) (l : list slot) (env : gmap string string),
  (S i + length toks <= length l)%nat ->
  exists t,
    main_fill_gidlist w toks i l env
      = (t, Next (take (S i) l ++ (Some <$> gids)
                    ++ drop (S i + length toks) l) env) /\
    List.filter noisy t = [].
Proof.
  induction 1 as [|token g toks gids Hg _ IH]; intros i l env Hlen.
  - exists []. split; [|reflexivity]. simpl.
    rewrite Nat.add_0_r, take_drop. reflexivity.
  - cbn [main_fill_gidlist]. simpl length in Hlen.
    destruct (get_gid_run w token env) as (tg & Eg & Hq). rewrite Hg in Eg.
    rewrite (bind_next _ _ _ _ _ _ Eg).
    destruct (Nat.ltb_spec (S i) (length l)) as [Hi|]; [|lia].
    destruct (IH (S i) (<[S i := Some g]> l) env) as (t & Et & Hqt).
    { rewrite length_insert. lia. }
    rewrite Et. exists (tg ++ t). cbn [fst snd].
    split; [|rewrite List.filter_app, Hq, Hqt; reflexivity].
    f_equal. f_equal.
    rewrite (take_S_r (<[S i := Some g]> l) (S i) (Some g))
      by (apply list_lookup_insert_eq; exact Hi).
    rewrite take_insert_ge by lia.
    rewrite drop_insert_lt by lia.
    rewrite <- app_assoc. simpl.
    replace (S (i + S (length toks))) with (S (S (i + length toks))) by lia.
    reflexivity.
Qed.

(** For a group part without an empty token, that is with as many
    tokens as commas plus one, each with a gid, [setgroups] gets exactly
    the gids of the tokens in order and the gid of the first goes on to
    [setgid]. *)
Lemma explicit_groups_exact (w : World) (g : string) (gid : Z)
  (pw : option passwd) (env : gmap string string) (gids : list Z) :
  g <> EmptyString ->
  length (tokens "," g) = (str_occurrences g "," + 1)%nat ->
  Forall2 (fun tok x => gid_of_token w tok = Some x) (tokens "," g) gids ->
  w_setgroups_ok w (Z.of_nat (length gids)) (Some <$> gids) = true ->
  exists t first,
    head gids = Some first /\
    main_explicit_groups w (Some g) gid pw env
      = (t, Next (first, None) env) /\
    List.filter noisy t
      = [Setgroups (Z.of_nat (length gids)) (Some <$> gids)].
Proof.
  intros Hne Hcnt Hgids Hok.
  pose proof (Forall2_length _ _ _ Hgids) as Hlen.
  destruct g as [|c0 g0]; [congruence|].
  unfold main_explicit_groups. cbv beta iota zeta.
  remember (String c0 g0) as g eqn:Hgdef. clear Hgdef c0 g0.
  destruct (Nat.eqb_spec (str_occurrences g "," + 1) 1) as [Hone | Hmany].
  - rewrite (tokens_plain "," g Hne) in Hgids by lia.
    inversion Hgids as [|? x ? gids' Hx Hnil]; subst.
    inversion Hnil; subst.
    destruct (get_gid_run w g env) as (tg & Eg & Hq). rewrite Hx in Eg.
    rewrite (bind_next _ _ _ _ _ _ Eg).
    change (w_setgroups_ok w 1 [Some x] = true) in Hok.
    unfold setgroups, bind, emit, ret. simpl. rewrite Hok.
    exists (tg ++ [Setgroups 1 [Some x]] ++ []), x.
    repeat split. rewrite List.filter_app, Hq. reflexivity.
  - rewrite (tokens_unfold "," g) in Hgids, Hcnt.
    destruct (strtok "," g) as [[token save]|] eqn:Etok;
      [|simpl in Hcnt; lia].
    inversion Hgids as [|? x ? gids' Hx Hrest]; subst.
    simpl in Hcnt. pose proof (Forall2_length _ _ _ Hrest) as Hlen'.
    destruct (get_gid_run w token env) as (tg & Eg & Hq). rewrite Hx in Eg.
    rewrite (bind_next _ _ _ _ _ _ Eg).
    set (cnt := (str_occurrences g "," + 1)%nat) in *.
    set (l0 := <[O := Some x]> (replicate cnt None) : list slot).
    assert (Hl0 : length l0 = cnt)
      by (subst l0; rewrite length_insert, length_replicate; reflexivity).
    destruct (fill_gidlist_exact w _ _ Hrest O l0 env) as (tf & Ef & Hqf);
      [lia|].
    assert (Hres : take 1 l0 ++ (Some <$> gids') ++ drop (1 + length (tokens "," save)) l0
                   = Some <$> (x :: gids')).
    { rewrite drop_ge by lia. rewrite app_nil_r.
      subst l0. destruct cnt; [lia|]. reflexivity. }
    rewrite Hres in Ef. cbn [fst snd]. rewrite (bind_next _ _ _ _ _ _ Ef).
    unfold setgroups, bind, emit, ret. cbn [fst snd].
    replace (Z.of_nat cnt) with (Z.of_nat (length (x :: gids')))
      by (simpl; lia).
    rewrite Hok. eexists _, x. split; [reflexivity|]. split; [reflexivity|].
    rewrite !List.filter_app, Hq, Hqf. reflexivity.
Qed.

(** C6 fails on a group part with an empty token.  For "100,200,300"
    the array given to [setgroups] is 100, 200, 300 and [setgid] gets
    100.  For "100,,200" the count of line 100 is 3 but [strtok] yields
    two tokens: the third slot is given to [setgroups] as [malloc] left
    it. *)
Theorem C6_empty_token_slot_unwritten :
  run w_demo 2 "su-exec" ["1234:100,200,300"; "id"]
    = ([Getuid; Getgid; Getpwuid 1234; Setenv "HOME" "/";
        Setgroups 3 [Some 100; Some 200; Some 300];
        Setgid 100; Setuid 1234; Execvp "id" ["id"]],
       Replaced "id" ["id"] (<["HOME" := "/"]> (w_environ w_demo))) /\
  tokens "," "100,,200" = ["100"; "200"]%string /\
  run w_demo 2 "su-exec" ["1234:100,,200"; "id"]
    = ([Getuid; Getgid; Getpwuid 1234; Setenv "HOME" "/";
        Setgroups 3 [Some 100; Some 200; None];
        Setgid 100; Setuid 1234; Execvp "id" ["id"]],
       Replaced "id" ["id"] (<["HOME" := "/"]> (w_environ w_demo))).
Proof. repeat split; vm_compute; reflexivity. Qed.

(** ** Numeric tokens: the claim as stated *)

Lemma C4_numeric_witness :
  get_gid w_demo "-5" ∅ = ([], Next 4294967291 ∅) /\
  main_resolve_user w_demo " +7" 0 1000 ∅
    = ([Getpwuid 7], Next (7, 1000, None) ∅) /\
  get_gid w_demo "1x2" ∅
    = ([Getgrnam "1x2"; Stderr "getgrnam(%s)" (ArgStr "1x2")],
       Stop (Exited 1)) /\
  get_gid w_demo "users" ∅
    = ([Getgrnam "users"; Stderr "getgrnam(%s)" (ArgStr "users")],
       Stop (Exited 1)) /\
  get_gid w_demo "42" ∅ = ([], Next 42 ∅).
Proof.
  destruct (C4_numeric_tokens w_demo "-5" "x" 0 1000 ∅) as (_ & Hneg & _).
  destruct (C4_numeric_tokens w_demo " +7" "x" 0 1000 ∅) as (_ & Hpos & _).
  destruct (C4_numeric_tokens w_demo "1x2" "x" 0 1000 ∅) as (_ & _ & Hname & _).
  destruct (C4_numeric_tokens w_demo "user" "s" 0 1000 ∅) as (_ & _ & _ & Htrail & _).
  destruct (C4_numeric_tokens w_demo "42" "x" 0 1000 ∅) as (_ & _ & _ & _ & Hdig).
  split; [|split; [|split; [|split]]].
  - refine (proj1 (Hneg true "5"%string _)).
    exists EmptyString, "-"%string. repeat split; auto; discriminate.
  - refine (proj2 (Hpos false "7"%string _)).
    exists " "%string, "+"%string. repeat split; auto; discriminate.
  - refine (proj1 (Hname _ _)); [discriminate|].
    intros (neg & ds & H). apply strtol_integer_text in H.
    apply (f_equal snd) in H. vm_compute in H. discriminate H.
  - apply (proj1 (Htrail eq_refl)).
  - apply Hdig; [discriminate | reflexivity | reflexivity].
Defined.

(** C4 as stated fails: "-5" is consumed whole by [strtol] and is taken
    as a number although it is negative, and the uid is -5 converted to
    [uid_t]; the digits of 2^32 are taken as the id 0. *)
Lemma C4_counterexample :
  ~ (forall tok : string, tok <> EmptyString ->
       snd (strtol tok) = EmptyString -> 0 <= fst (strtol tok)) /\
  main_resolve_user w_demo "-5" 0 1000 ∅
    = ([Getpwuid 4294967291], Next (4294967291, 1000, None) ∅) /\
  ~ (forall tok : string, tok <> EmptyString ->
       str_forall isdigit tok = true ->
       get_gid w_demo tok ∅ = ([], Next (decimal tok) ∅)) /\
  get_gid w_demo "4294967296" ∅ = ([], Next 0 ∅).
Proof.
  split; [|split; [|split]].
  - intros H. specialize (H "-5"%string). vm_compute in H.
    apply H; [discriminate | reflexivity | reflexivity].
  - vm_compute. reflexivity.
  - intros H. specialize (H "4294967296"%string). vm_compute in H.
    specialize (H ltac:(discriminate) eq_refl). discriminate H.
  - vm_compute. reflexivity.
Qed.

(** * Further properties *)

(** ** Strings *)

Lemma strchr_split (s : string) (c : ascii) (i : nat) :
  Ascii.eqb c Ascii.zero = false ->
  strchr s c = Some i ->
  s = str_take i s +:+ String c (str_drop (S i) s) /\
  strchr (str_take i s) c = None.
Proof.
  intros Hc. revert i. induction s as [|a s IH]; intros i; simpl.
  { rewrite Hc. discriminate. }
  destruct (Ascii.eqb_spec a c) as [-> | Hne].
  - intros [= <-]. simpl. rewrite Hc. split; reflexivity.
  - destruct (strchr s c) as [j|]; [|discriminate].
    intros [= <-]. destruct (IH j eq_refl) as [E Hnone].
    split.
    + change (String a s = String a (str_take j s +:+ String c (str_drop (S j) s))).
      f_equal. exact E.
    + simpl. destruct (Ascii.eqb_spec a c); [contradiction|].
      rewrite Hnone. reflexivity.
Qed.

(** X1: the split loses nothing.  When a group comes out, the argument
    is the user, a colon, then the group, and the user has no colon; when
    none comes out, the argument is the user and has no colon. *)
Theorem X1_split_spec_inverse (s u g : string) :
  (split_spec s = (u, Some g) ->
     s = u +:+ ":" +:+ g /\ strchr u ":" = None) /\
  (split_spec s = (u, None) -> s = u /\ strchr s ":" = None).
Proof.
  unfold split_spec. destruct (strchr s ":") as [i|] eqn:E.
  - split; [|discriminate]. intros [= <- <-].
    apply strchr_split; [reflexivity | exact E].
  - split; [discriminate|]. intros [= <-]. auto.
Qed.

Lemma X1_split_spec_inverse_witness :
  "alice:staff,adm"%string = "alice" +:+ ":" +:+ "staff,adm" /\
  strchr "alice" ":" = None.
Proof.
  apply (proj1 (X1_split_spec_inverse "alice:staff,adm" "alice" "staff,adm")).
  reflexivity.
Defined.

Lemma str_occurrences_app (a b : string) (c : ascii) :
  str_occurrences (a +:+ b) c
  = (str_occurrences a c + str_occurrences b c)%nat.
Proof.
  induction a as [|x a IH]; [reflexivity|].
  change (String x a +:+ b) with (String x (a +:+ b)).
  simpl. rewrite IH. lia.
Qed.

(** X2: [str_occurrences] adds up over a concatenation and never
    exceeds the length of the string.  [strchr] finds nothing exactly
    when the count is zero and the character is not NUL: the terminator,
    which [strchr] finds, is not counted by the loop of line 26. *)
Theorem X2_str_occurrences_counts (a b : string) (c : ascii) :
  str_occurrences (a +:+ b) c
    = (str_occurrences a c + str_occurrences b c)%nat /\
  (str_occurrences a c <= String.length a)%nat /\
  (strchr a c = None <->
   str_occurrences a c = O /\ Ascii.eqb c Ascii.zero = false).
Proof.
  split; [apply str_occurrences_app|]. split.
  - induction a as [|x a IH]; simpl; [lia|].
    destruct (Ascii.eqb x c); lia.
  - induction a as [|x a IH]; simpl.
    + destruct (Ascii.eqb c Ascii.zero); split;
        [discriminate | intros [_ ?]; discriminate | auto | auto].
    + destruct (Ascii.eqb x c); simpl.
      * split; [discriminate | intros [? _]; discriminate].
      * rewrite <- IH. destruct (strchr a c); simpl; split; congruence.
Qed.

Lemma skip_delim_head (d : ascii) (s : string) (c : ascii) (r : string) :
  skip_delim d s = String c r -> Ascii.eqb c d = false.
Proof.
  induction s as [|a s IH]; simpl; [discriminate|].
  destruct (Ascii.eqb a d) eqn:E; [exact IH|].
  intros [= <- <-]. exact E.
Qed.

Lemma skip_delim_all (d : ascii) (s : string) :
  skip_delim d s = EmptyString <->
  str_forall (fun c => Ascii.eqb c d) s = true.
Proof.
  induction s as [|a s IH]; simpl; [tauto|].
  destruct (Ascii.eqb a d); simpl; [exact IH|].
  split; discriminate.
Qed.

Lemma span_token_plain_fst (d : ascii) (s : string) :
  str_occurrences (fst (span_token d s)) d = O.
Proof.
  induction s as [|a s IH]; simpl; [reflexivity|].
  destruct (Ascii.eqb a d) eqn:E; [reflexivity|].
  destruct (span_token d s) as [t save]. simpl in *. rewrite E. exact IH.
Qed.

Lemma strtok_token (d : ascii) (s t save : string) :
  strtok d s = Some (t, save) ->
  t <> EmptyString /\ str_occurrences t d = O.
Proof.
  unfold strtok. destruct (skip_delim d s) as [|c r] eqn:Hskip; [discriminate|].
  intros [= E]. change (span_token d (String c r) = (t, save)) in E.
  split.
  - apply skip_delim_head in Hskip. simpl in E. rewrite Hskip in E.
    destruct (span_token d r). injection E as <- _. discriminate.
  - pose proof (span_token_plain_fst d (String c r)) as H.
    rewrite E in H. exact H.
Qed.

Lemma tokens_each (d : ascii) (s : string) :
  Forall (fun t => t <> EmptyString /\ str_occurrences t d = O) (tokens d s).
Proof.
  remember (String.length s) as n eqn:Hn.
  revert s Hn. induction n as [n IH] using lt_wf_ind. intros s ->.
  rewrite tokens_unfold.
  destruct (strtok d s) as [[t save]|] eqn:E; [|constructor].
  constructor.
  - eapply strtok_token. exact E.
  - eapply IH; [|reflexivity]. eapply strtok_shorter. exact E.
Qed.

(** X3: what [strtok] hands to [get_gid].  No token is empty and none
    holds a comma; there are at most as many tokens as commas plus one,
    the slots of line 113; and there is no token at all exactly when the
    string is made of commas only. *)
Theorem X3_tokens_of_strtok (d : ascii) (s : string) :
  Forall (fun t => t <> EmptyString /\ str_occurrences t d = O) (tokens d s) /\
  (length (tokens d s) <= str_occurrences s d + 1)%nat /\
  (tokens d s = [] <-> str_forall (fun c => Ascii.eqb c d) s = true).
Proof.
  split; [apply tokens_each|]. split; [apply tokens_count_le|].
  rewrite tokens_unfold, <- skip_delim_all. unfold strtok.
  destruct (skip_delim d s) as [|c r].
  - tauto.
  - destruct (span_token d (String c r)). split; discriminate.
Qed.

(** ** Numeric ids out of range *)

Lemma to_id_clamp_nonneg (v : Z) :
  0 <= v ->
  to_id (clamp_long v) = if v <=? LONG_MAX then v mod 2 ^ 32 else 2 ^ 32 - 1.
Proof.
  intros H. unfold clamp_long, to_id, LONG_MIN, LONG_MAX.
  destruct (Z.ltb_spec v (- 2 ^ 63)); [lia|].
  destruct (Z.ltb_spec (2 ^ 63 - 1) v); destruct (Z.leb_spec v (2 ^ 63 - 1));
    try lia; reflexivity.
Qed.

(** X4: a string of digits is never refused as a number, whatever its
    size.  Its value is cut to a [long] by [strtol], saturating at
    [LONG_MAX], and then to the 32 bits of [uid_t] and [gid_t]: up to
    [LONG_MAX] the id is the value modulo 2^32, above it the id is
    2^32 - 1.  In both places, group token and user, no name lookup is
    made. *)
Theorem X4_numeric_id_wraps (w : World) (ds : string) (uid gid : Z)
  (env : gmap string string) :
  ds <> EmptyString -> str_forall isdigit ds = true ->
  get_gid w ds env
    = ([], Next (if decimal ds <=? LONG_MAX then decimal ds mod 2 ^ 32
                 else 2 ^ 32 - 1) env) /\
  fst (main_resolve_user w ds uid gid env)
    = [Getpwuid (if decimal ds <=? LONG_MAX then decimal ds mod 2 ^ 32
                 else 2 ^ 32 - 1)] /\
  0 <= (if decimal ds <=? LONG_MAX then decimal ds mod 2 ^ 32 else 2 ^ 32 - 1)
    < 2 ^ 32.
Proof.
  intros Hne Hds.
  pose proof (strtol_digits ds Hne Hds) as E.
  pose proof (decimal_nonneg ds Hds) as H0.
  assert (Hid : to_id (fst (strtol ds))
                = if decimal ds <=? LONG_MAX then decimal ds mod 2 ^ 32
                  else 2 ^ 32 - 1)
    by (rewrite E; apply to_id_clamp_nonneg; exact H0).
  split; [|split].
  - rewrite get_gid_number by (rewrite E; reflexivity). rewrite Hid. reflexivity.
  - rewrite resolve_user_number by (try assumption; rewrite E; reflexivity).
    rewrite Hid. reflexivity.
  - destruct (decimal ds <=? LONG_MAX); [|lia].
    apply Z.mod_pos_bound. lia.
Qed.

Lemma X4_numeric_id_wraps_witness :
  get_gid w_demo "4294967297" ∅
    = ([], Next (if decimal "4294967297" <=? LONG_MAX
                 then decimal "4294967297" mod 2 ^ 32 else 2 ^ 32 - 1) ∅) /\
  fst (main_resolve_user w_demo "4294967297" 0 0 ∅)
    = [Getpwuid (if decimal "4294967297" <=? LONG_MAX
                 then decimal "4294967297" mod 2 ^ 32 else 2 ^ 32 - 1)] /\
  0 <= (if decimal "4294967297" <=? LONG_MAX
        then decimal "4294967297" mod 2 ^ 32 else 2 ^ 32 - 1) < 2 ^ 32.
Proof.
  apply (X4_numeric_id_wraps w_demo "4294967297" 0 0 ∅).
  - discriminate.
  - reflexivity.
Defined.

(** ** The phases of [main], with the answer that decides each *)

Lemma fill_gidlist_verdict (w : World) (toks : list string) :
  forall (i : nat) (l : list slot) (env : gmap string string)
    (t : list event) (r : result (list slot)),
  main_fill_gidlist w toks i l env = (t, r) ->
  r = Stop Crashed \/
  (r = Stop (Exited 1) /\
   exists tok, In tok toks /\ gid_of_token w tok = None) \/
  (exists l', r = Next l' env /\
              Forall (fun t => gid_of_token w t <> None) toks).
Proof.
  induction toks as [|token toks IH]; intros i l env t r Hrun.
  - injection Hrun as <- <-. right. right. eauto.
  - cbn [main_fill_gidlist] in Hrun.
    destruct (get_gid_run w token env) as (tg & Eg & _).
    destruct (gid_of_token w token) as [g|] eqn:Hg.
    + rewrite (bind_next _ _ _ _ _ _ Eg) in Hrun.
      destruct (S i <? length l)%nat.
      * destruct (main_fill_gidlist w toks (S i) (<[S i := Some g]> l) env)
          as [t' r'] eqn:E'.
        injection Hrun as <- <-.
        destruct (IH _ _ _ _ _ E') as [-> | [(-> & tok & Hin & Hnone) | (l' & -> & Hall)]].
        -- auto.
        -- right. left. split; [reflexivity|]. exists tok. simpl. auto.
        -- right. right. exists l'. split; [reflexivity|].
           constructor; [congruence | exact Hall].
      * injection Hrun as <- <-. auto.
    + rewrite (bind_stop _ _ _ _ _ Eg) in Hrun. injection Hrun as <- <-.
      right. left. split; [reflexivity|]. exists token. simpl. auto.
Qed.

Lemma explicit_groups_verdict (w : World) (g : string) (gid : Z)
  (pw : option passwd) (env : gmap string string) (t : list event)
  (r : result (Z * option passwd)) :
  g <> EmptyString ->
  main_explicit_groups w (Some g) gid pw env = (t, r) ->
  exists G e,
    List.filter noisy t = G /\
    group_verdict w (Some g) gid pw G e /\
    r = match e with
        | Handed x => Next (x, None) env
        | Ended o => Stop o
        end.
Proof.
  intros Hne Hrun.
  pose proof (explicit_groups_run w g gid pw env t r Hne Hrun) as Hold.
  pose proof (explicit_groups_crash w g gid pw env) as Hcrash.
  rewrite Hrun in Hcrash. cbn [snd] in Hcrash.
  destruct g as [|c0 g0]; [congruence|].
  unfold main_explicit_groups in Hrun. cbv beta iota zeta in Hrun.
  remember (String c0 g0) as g eqn:Hgdef. clear Hgdef c0 g0.
  destruct (Nat.eqb_spec (str_occurrences g "," + 1) 1) as [Hone | Hmany].
  - (* one token *)
    assert (Htoks : tokens "," g = [g]) by (apply tokens_plain; [exact Hne | lia]).
    destruct (get_gid_run w g env) as (tg & Eg & Hq).
    destruct (gid_of_token w g) as [x|] eqn:Hg.
    + rewrite (bind_next _ _ _ _ _ _ Eg) in Hrun.
      unfold setgroups, bind, emit, ret in Hrun. simpl in Hrun.
      assert (Hall : Forall (fun t => gid_of_token w t <> None) (tokens "," g))
        by (rewrite Htoks; constructor; [congruence | constructor]).
      assert (Hz : Z.of_nat (str_occurrences g "," + 1) = 1)
        by (rewrite Hone; reflexivity).
      assert (Hhd : head (tokens "," g) = Some g) by (rewrite Htoks; reflexivity).
      destruct (w_setgroups_ok w 1 [Some x]) eqn:Hok; injection Hrun as <- <-;
        rewrite List.filter_app, Hq; simpl.
      * exists [Setgroups (Z.of_nat (str_occurrences g "," + 1)) [Some x]], (Handed x).
        split; [rewrite Hz; reflexivity|]. split; [|reflexivity].
        eapply gv_explicit; eauto.
        rewrite Hz. exact Hok.
      * exists [Setgroups (Z.of_nat (str_occurrences g "," + 1)) [Some x]], (Ended (Exited 1)).
        split; [rewrite Hz; reflexivity|]. split; [|reflexivity].
        eapply gv_explicit_rejected; eauto.
        rewrite Hz. exact Hok.
    + rewrite (bind_stop _ _ _ _ _ Eg) in Hrun. injection Hrun as <- <-.
      exists [], (Ended (Exited 1)). repeat split; [exact Hq|].
      eapply (gv_explicit_unknown _ _ _ _ g g); eauto.
      rewrite Htoks. simpl. auto.
  - (* several tokens *)
    pose proof (tokens_unfold "," g) as Hunf.
    pose proof (tokens_count_le "," g) as Hcnt.
    destruct (strtok "," g) as [[token save]|] eqn:Etok.
    2:{ injection Hrun as <- <-. exists [], (Ended Crashed).
        repeat split. eapply gv_explicit_null; eauto. }
    rewrite Hunf in Hcnt. simpl in Hcnt.
    destruct (get_gid_run w token env) as (tg & Eg & Hq).
    destruct (gid_of_token w token) as [x|] eqn:Hg.
    2:{ rewrite (bind_stop _ _ _ _ _ Eg) in Hrun. injection Hrun as <- <-.
        exists [], (Ended (Exited 1)). repeat split; [exact Hq|].
        eapply (gv_explicit_unknown _ _ _ _ g token); eauto.
        rewrite Hunf. simpl. auto. }
    rewrite (bind_next _ _ _ _ _ _ Eg) in Hrun.
    set (cnt := (str_occurrences g "," + 1)%nat) in *.
    set (l0 := <[O := Some x]> (replicate cnt None) : list slot) in *.
    destruct (main_fill_gidlist w (tokens "," save) O l0 env) as [tf rf] eqn:Ef.
    pose proof (fill_gidlist_run w (token :: tokens "," save) _ _ _ _ _ _ Ef eq_refl) as Hqf.
    assert (Hl0 : from_tokens w (token :: tokens "," save) l0).
    { intros j y Hj. subst l0.
      apply list_lookup_insert_Some in Hj as [(<- & [= <-] & _) | (_ & Hj)].
      - exists token. auto.
      - apply lookup_replicate in Hj as [Hj _]. discriminate. }
    destruct (Hqf Hl0) as [Hqf' _]. clear Hqf.
    destruct (fill_gidlist_verdict w _ _ _ _ _ _ Ef)
      as [-> | [(-> & tok & Hin & Hnone) | (l' & -> & Hall)]].
    + exfalso. rewrite (bind_stop _ _ _ _ _ Ef) in Hrun. injection Hrun as <- <-.
      specialize (Hcrash eq_refl). discriminate Hcrash.
    + rewrite (bind_stop _ _ _ _ _ Ef) in Hrun. injection Hrun as <- <-.
      exists [], (Ended (Exited 1)).
      rewrite List.filter_app, Hq, Hqf'. repeat split.
      eapply (gv_explicit_unknown _ _ _ _ g tok); eauto.
      rewrite Hunf. simpl. auto.
    + rewrite (bind_next _ _ _ _ _ _ Ef) in Hrun.
      unfold setgroups, bind, emit, ret in Hrun. simpl in Hrun.
      assert (Hall' : Forall (fun t => gid_of_token w t <> None) (tokens "," g))
        by (rewrite Hunf; constructor; [congruence | exact Hall]).
      assert (Hhd : head (tokens "," g) = Some token)
        by (rewrite Hunf; reflexivity).
      destruct (w_setgroups_ok w (Z.of_nat cnt) l') eqn:Hok;
        injection Hrun as <- <-; rewrite !List.filter_app, Hq, Hqf'; simpl.
      * exists [Setgroups (Z.of_nat cnt) l'], (Handed x). repeat split.
        eapply gv_explicit; eauto.
      * exists [Setgroups (Z.of_nat cnt) l'], (Ended (Exited 1)). repeat split.
        eapply gv_explicit_rejected; eauto.
Qed.

Lemma grouplist_loop_verdict (w : World) (fuel : nat) :
  forall (k : nat) (name : string) (gid : Z) (glist : list slot) (n : Z)
    (env : gmap string string) (t : list event) (r : result unit),
  main_grouplist_loop w fuel k name gid glist n env = (t, r) ->
  exists q,
    queries_for name gid q /\
    ((List.filter noisy t = q /\ (r = Stop (Exited 1) \/ r = Stop Spinning)) \/
     exists n' l,
       List.filter noisy t = q ++ [Setgroups n' l] /\
       ((w_setgroups_ok w n' l = true /\ r = Next tt env) \/
        (w_setgroups_ok w n' l = false /\ r = Stop (Exited 1)))).
Proof.
  induction fuel as [|fuel IH]; intros k name gid glist n env t r Hrun.
  - injection Hrun as <- <-. exists []. split; [constructor|]. left. auto.
  - cbn [main_grouplist_loop] in Hrun.
    rewrite (bind_next _ _ env env [Getgrouplist name gid n] tt eq_refl) in Hrun.
    destruct (w_getgrouplist w k name gid glist n) as [[r0 n'] glist'].
    destruct (0 <=? r0).
    + unfold setgroups, bind, emit, ret in Hrun. simpl in Hrun.
      exists [Getgrouplist name gid n].
      split; [constructor; [eauto | constructor]|].
      right. exists n', glist'.
      destruct (w_setgroups_ok w n' glist'); injection Hrun as <- <-;
        (split; [reflexivity|]); auto.
    + destruct (w_realloc_ok w k n').
      * destruct (main_grouplist_loop w fuel (S k) name gid (resize glist' n') n' env)
          as [t' r'] eqn:E'.
        injection Hrun as <- <-.
        apply IH in E' as (q & Hq & Hcase).
        exists (Getgrouplist name gid n :: q).
        split; [constructor; [eauto | exact Hq]|].
        destruct Hcase as [[Ht Hr] | (n2 & l & Ht & Hr)].
        -- left. simpl. rewrite Ht. auto.
        -- right. exists n2, l. simpl. rewrite Ht. auto.
      * injection Hrun as <- <-. exists [Getgrouplist name gid n].
        split; [constructor; [eauto | constructor]|]. left. auto.
Qed.

Lemma transition_verdict (w : World) (uid gid : Z) (cmd : string)
  (argv : list string) (env : gmap string string) :
  List.filter noisy (fst (main_transition w uid gid cmd argv env))
    = transition_trace w uid gid cmd argv /\
  snd (main_transition w uid gid cmd argv env)
    = Stop (transition_outcome w uid gid cmd argv env).
Proof.
  unfold main_transition, transition_trace, transition_outcome,
    setgid, setuid, execvp, err, exit, stop, bind, emit, ret.
  simpl.
  destruct (w_setgid_ok w gid); simpl; [|auto].
  destruct (w_setuid_ok w uid); simpl; [|auto].
  destruct (w_execvp_ok w cmd argv); simpl; auto.
Qed.

(** A run that resolved its user: what the group phase and the
    transition put in the trace, and how the run ends. *)
Lemma run_verdict (w : World) (fuel : nat) (argv0 spec cmd : string)
  (rest : list string) (user : string) (group : option string)
  (t0 : list event) (uid gid : Z) (pw : option passwd)
  (env0 : gmap string string) :
  split_spec spec = (user, group) ->
  main_resolve_user w user (w_getuid w) (w_getgid w) (w_environ w)
    = (t0, Next (uid, gid, pw) env0) ->
  exists G e,
    group_verdict w group gid pw G e /\
    List.filter noisy (fst (run w fuel argv0 (spec :: cmd :: rest)))
      = Setenv "HOME" (home_of pw) :: G ++
        match e with
        | Handed g => transition_trace w uid g cmd (cmd :: rest)
        | Ended _ => []
        end /\
    snd (run w fuel argv0 (spec :: cmd :: rest))
      = match e with
        | Handed g =>
            transition_outcome w uid g cmd (cmd :: rest)
              (<["HOME" := home_of pw]> (w_environ w))
        | Ended o => o
        end.
Proof.
  intros Hsplit E0.
  destruct (resolve_user_run _ _ _ _ _ _ _ E0) as [Hq0 [? | (a & [= <- ->])]];
    [discriminate|].
  rewrite run_unfold, Hsplit, E0. cbv beta iota zeta.
  set (env1 := <["HOME" := home_of pw]> (w_environ w)).
  set (pre := fun t : list event =>
                Getuid :: Getgid :: t0 ++ Setenv "HOME" (home_of pw) :: t).
  assert (Hpre : forall t, List.filter noisy (pre t)
                           = Setenv "HOME" (home_of pw) :: List.filter noisy t).
  { intros t. unfold pre. simpl. rewrite List.filter_app, Hq0. reflexivity. }
  destruct (main_explicit_groups w group gid pw env1) as [t1 r1] eqn:E1.
  assert (Hcase :
    (exists g, group = Some g /\ g <> EmptyString) \/
    (group = None \/ group = Some EmptyString)).
  { destruct group as [[|c g]|];
      [auto | left; eexists; split; [reflexivity | discriminate] | auto]. }
  destruct Hcase as [(g & -> & Hg) | Hnone].
  - (* an explicit group *)
    destruct (explicit_groups_verdict _ _ _ _ _ _ _ Hg E1) as (G & e & HG & Hv & ->).
    exists G, e. split; [exact Hv|].
    destruct e as [x|o].
    + cbn [main_grouplist]. change (ret tt env1) with (@nil event, Next tt env1).
      cbv beta iota.
      pose proof (transition_verdict w uid x cmd (cmd :: rest) env1) as [Ht Hr].
      destruct (main_transition w uid x cmd (cmd :: rest) env1) as [t3 r3].
      cbn [fst snd] in Ht, Hr. subst r3. cbn [fst snd].
      change (Getuid :: Getgid :: t0 ++ Setenv "HOME" (home_of pw) :: t1 ++ [] ++ t3)
        with (pre (t1 ++ [] ++ t3)).
      rewrite Hpre, !List.filter_app, HG, Ht. simpl. auto.
    + cbn [fst snd]. change (Getuid :: Getgid :: t0 ++ Setenv "HOME" (home_of pw) :: t1)
        with (pre t1).
      rewrite Hpre, HG, app_nil_r. auto.
  - (* no group *)
    assert (E1' : main_explicit_groups w group gid pw env1 = ([], Next (gid, pw) env1))
      by (destruct Hnone as [-> | ->]; reflexivity).
    rewrite E1' in E1. injection E1 as <- <-.
    destruct pw as [p|].
    + cbn [main_grouplist].
      destruct (main_grouplist_loop w fuel O (pw_name p) gid [] 0 env1)
        as [t2 r2] eqn:E2.
      destruct (grouplist_loop_verdict _ _ _ _ _ _ _ _ _ _ E2)
        as (q & Hq & [[Ht2 Hr2] | (n & l & Ht2 & [[Hok ->] | [Hok ->]])]).
      * destruct Hr2 as [-> | ->]; cbn [fst snd];
          change (Getuid :: Getgid :: t0 ++ Setenv "HOME" (home_of (Some p)) :: [] ++ t2)
            with (pre ([] ++ t2));
          rewrite Hpre; simpl; rewrite Ht2.
        -- exists q, (Ended (Exited 1)). rewrite app_nil_r.
           split; [eapply gv_derived_malloc; eauto | auto].
        -- exists q, (Ended Spinning). rewrite app_nil_r.
           split; [eapply gv_derived_spin; eauto | auto].
      * pose proof (transition_verdict w uid gid cmd (cmd :: rest) env1) as [Ht Hr].
        destruct (main_transition w uid gid cmd (cmd :: rest) env1) as [t3 r3].
        cbn [fst snd] in Ht, Hr. subst r3. cbn [fst snd].
        change (Getuid :: Getgid :: t0 ++ Setenv "HOME" (home_of (Some p)) :: [] ++ t2 ++ t3)
          with (pre ([] ++ t2 ++ t3)).
        rewrite Hpre. simpl. rewrite List.filter_app, Ht2, Ht.
        exists (q ++ [Setgroups n l]), (Handed gid).
        split; [eapply gv_derived; eauto | auto].
      * cbn [fst snd].
        change (Getuid :: Getgid :: t0 ++ Setenv "HOME" (home_of (Some p)) :: [] ++ t2)
          with (pre ([] ++ t2)).
        rewrite Hpre. simpl. rewrite Ht2.
        exists (q ++ [Setgroups n l]), (Ended (Exited 1)). rewrite app_nil_r.
        split; [eapply gv_derived_rejected; eauto | auto].
    + cbn [main_grouplist]. change (ret tt env1) with (@nil event, Next tt env1).
      cbv beta iota.
      pose proof (transition_verdict w uid gid cmd (cmd :: rest) env1) as [Ht Hr].
      destruct (main_transition w uid gid cmd (cmd :: rest) env1) as [t3 r3].
      cbn [fst snd] in Ht, Hr. subst r3. cbn [fst snd].
      change (Getuid :: Getgid :: t0 ++ Setenv "HOME" (home_of None) :: [] ++ [] ++ t3)
        with (pre ([] ++ [] ++ t3)).
      rewrite Hpre. simpl. rewrite Ht.
      exists [], (Handed gid). split; [eapply gv_inherit; eauto | auto].
Qed.

Lemma filter_noisy_sub (P : event -> bool) (t : list event) :
  (forall e, P e = true -> noisy e = true) ->
  List.filter P (List.filter noisy t) = List.filter P t.
Proof.
  intros HP. induction t as [|e t IH]; [reflexivity|]. simpl.
  destruct (noisy e) eqn:Hn; simpl; rewrite IH; [reflexivity|].
  destruct (P e) eqn:HPe; [|reflexivity].
  rewrite (HP e HPe) in Hn. discriminate.
Qed.

Lemma resolve_user_record (w : World) (user : string) (uid0 gid0 : Z)
  (env env' : gmap string string) (t : list event) (uid gid : Z) (p : passwd) :
  main_resolve_user w user uid0 gid0 env = (t, Next (uid, gid, Some p) env') ->
  uid = pw_uid p /\ gid = pw_gid p.
Proof.
  destruct user as [|c user].
  - rewrite resolve_user_empty.
    destruct (w_getpwuid w uid0); intros H; simplify_eq; auto.
  - destruct (snd (strtol (String c user))) as [|c' e] eqn:E.
    + rewrite resolve_user_number by (try discriminate; exact E).
      destruct (w_getpwuid w _); intros H; simplify_eq; auto.
    + rewrite resolve_user_name by (try discriminate; rewrite E; discriminate).
      destruct (w_getpwnam w _); intros H; simplify_eq; auto.
Qed.

(** Every run with a user-spec and a command is of one of two kinds. *)
Lemma run_cases (w : World) (fuel : nat) (argv0 spec cmd : string)
  (rest : list string) (user : string) (group : option string) :
  split_spec spec = (user, group) ->
  (exists t0,
     main_resolve_user w user (w_getuid w) (w_getgid w) (w_environ w)
       = (t0, Stop (Exited 1)) /\
     List.filter noisy (fst (run w fuel argv0 (spec :: cmd :: rest))) = [] /\
     snd (run w fuel argv0 (spec :: cmd :: rest)) = Exited 1) \/
  (exists t0 uid gid pw G e,
     main_resolve_user w user (w_getuid w) (w_getgid w) (w_environ w)
       = (t0, Next (uid, gid, pw) (w_environ w)) /\
     group_verdict w group gid pw G e /\
     List.filter noisy (fst (run w fuel argv0 (spec :: cmd :: rest)))
       = Setenv "HOME" (home_of pw) :: G ++
         match e with
         | Handed g => transition_trace w uid g cmd (cmd :: rest)
         | Ended _ => []
         end /\
     snd (run w fuel argv0 (spec :: cmd :: rest))
       = match e with
         | Handed g =>
             transition_outcome w uid g cmd (cmd :: rest)
               (<["HOME" := home_of pw]> (w_environ w))
         | Ended o => o
         end).
Proof.
  intros Hsplit.
  destruct (main_resolve_user w user (w_getuid w) (w_getgid w) (w_environ w))
    as [t0 r0] eqn:E0.
  destruct (resolve_user_run _ _ _ _ _ _ _ E0) as [Hq0 [-> | ([[uid gid] pw] & ->)]].
  - left. exists t0. split; [reflexivity|].
    rewrite run_unfold, Hsplit, E0. simpl. auto.
  - right. exists t0, uid, gid, pw.
    destruct (run_verdict w fuel argv0 spec cmd rest user group _ _ _ _ _ Hsplit E0)
      as (G & e & Hv & Ht & Ho).
    exists G, e. auto.
Qed.

Lemma transition_trace_in (w : World) (uid gid : Z) (cmd : string)
  (argv : list string) (e : event) :
  In e (transition_trace w uid gid cmd argv) ->
  e = Setgid gid \/
  (e = Setuid uid /\ w_setgid_ok w gid = true) \/
  (e = Execvp cmd argv /\ w_setgid_ok w gid = true /\ w_setuid_ok w uid = true).
Proof.
  unfold transition_trace. intros [<- | H]; [auto|].
  destruct (w_setgid_ok w gid); [|destruct H].
  destruct H as [<- | H]; [auto|].
  destruct (w_setuid_ok w uid); [|destruct H].
  destruct H as [<- | []]. auto.
Qed.

Lemma queries_for_in (name : string) (gid : Z) (q : list event) (e : event) :
  queries_for name gid q -> In e q -> exists n, e = Getgrouplist name gid n.
Proof.
  unfold queries_for. rewrite List.Forall_forall. intros H He. apply H, He.
Qed.

Lemma group_verdict_in (w : World) (group : option string) (gid : Z)
  (pw : option passwd) (G : list event) (e : group_end) (ev : event) :
  group_verdict w group gid pw G e -> In ev G ->
  (exists p n, (group = None \/ group = Some EmptyString) /\ pw = Some p /\
               ev = Getgrouplist (pw_name p) gid n) \/
  (exists n l, ev = Setgroups n l /\
     ((w_setgroups_ok w n l = true /\ exists g, e = Handed g) \/
      (w_setgroups_ok w n l = false /\ e = Ended (Exited 1)))).
Proof.
  intros Hv Hin. inversion Hv; subst; try (destruct Hin; fail).
  - apply in_app_or in Hin as [Hin | [<- | []]].
    + left. destruct (queries_for_in _ _ _ _ H1 Hin) as [m ->]. eauto.
    + right. eauto 8.
  - apply in_app_or in Hin as [Hin | [<- | []]].
    + left. destruct (queries_for_in _ _ _ _ H1 Hin) as [m ->]. eauto.
    + right. eauto 8.
  - left. destruct (queries_for_in _ _ _ _ H1 Hin) as [m ->]. eauto.
  - left. destruct (queries_for_in _ _ _ _ H1 Hin) as [m ->]. eauto.
  - destruct Hin as [<- | []]. right. eauto 8.
  - destruct Hin as [<- | []]. right. eauto 8.
Qed.

Lemma queries_for_filters (name : string) (gid : Z) (q : list event) :
  queries_for name gid q ->
  List.filter is_idchange q = [] /\ List.filter is_exec q = [].
Proof.
  induction 1 as [|e q [n ->] _ [IH1 IH2]]; simpl; auto.
Qed.

Lemma transition_trace_no_exec_filter (w : World) (uid gid : Z)
  (cmd : string) (argv : list string) :
  w_setgid_ok w gid && w_setuid_ok w uid = false ->
  List.filter is_exec (transition_trace w uid gid cmd argv) = [].
Proof.
  unfold transition_trace.
  destruct (w_setgid_ok w gid); [|reflexivity].
  destruct (w_setuid_ok w uid); [discriminate | reflexivity].
Qed.

Lemma idchange_noisy (e : event) : is_idchange e = true -> noisy e = true.
Proof. destruct e; intros H; try discriminate H; reflexivity. Qed.

Lemma exec_noisy (e : event) : is_exec e = true -> noisy e = true.
Proof. destruct e; intros H; try discriminate H; reflexivity. Qed.

(** Where an event that is not [quiet] can come from. *)
Lemma run_event (tr G : list event) (v : string) (T : list event) (ev : event) :
  List.filter noisy tr = Setenv "HOME" v :: G ++ T ->
  In ev tr -> noisy ev = true ->
  ev = Setenv "HOME" v \/ In ev G \/ In ev T.
Proof.
  intros Htr Hin Hn. apply in_noisy in Hin; [|exact Hn]. rewrite Htr in Hin.
  destruct Hin as [<- | Hin]; [auto|].
  apply in_app_or in Hin. tauto.
Qed.

(** ** Lookups that fail *)

(** X5: a user that is not a number and is not in the user database
    ends the run at once: the message names the user, the status is 1,
    and nothing else was done, not even [HOME]. *)
Theorem X5_unknown_user (w : World) (fuel : nat) (argv0 spec cmd : string)
  (rest : list string) (user : string) (group : option string) :
  split_spec spec = (user, group) ->
  user <> EmptyString -> snd (strtol user) <> EmptyString ->
  w_getpwnam w user = None ->
  run w fuel argv0 (spec :: cmd :: rest)
    = ([Getuid; Getgid; Getpwnam user;
        Stderr "getpwnam(%s)" (ArgStr user)], Exited 1).
Proof.
  intros Hsplit Hne Hname Hnone.
  rewrite run_unfold, Hsplit, (resolve_user_name _ _ _ _ _ Hne Hname), Hnone.
  reflexivity.
Qed.

Lemma X5_unknown_user_witness :
  run w_demo 2 "su-exec" ["doesnotexist123:staff"; "id"]
    = ([Getuid; Getgid; Getpwnam "doesnotexist123";
        Stderr "getpwnam(%s)" (ArgStr "doesnotexist123")], Exited 1).
Proof.
  apply (X5_unknown_user w_demo 2 "su-exec" "doesnotexist123:staff" "id" []
           "doesnotexist123" (Some "staff"%string)).
  - reflexivity.
  - discriminate.
  - discriminate.
  - reflexivity.
Defined.

(** X6: when one token of the group part is neither a number nor a
    group of the database, the run ends with status 1 and has changed
    nothing of its identity: the whole list is resolved before
    [setgroups] is called. *)
Theorem X6_unknown_group (w : World) (fuel : nat) (argv0 spec cmd : string)
  (rest : list string) (user g tok : string) :
  split_spec spec = (user, Some g) ->
  In tok (tokens "," g) -> gid_of_token w tok = None ->
  snd (run w fuel argv0 (spec :: cmd :: rest)) = Exited 1 /\
  List.filter is_idchange (fst (run w fuel argv0 (spec :: cmd :: rest))) = [] /\
  List.filter is_exec (fst (run w fuel argv0 (spec :: cmd :: rest))) = [].
Proof.
  intros Hsplit Hin Hnone.
  rewrite <- (filter_noisy_sub is_idchange _ idchange_noisy),
          <- (filter_noisy_sub is_exec _ exec_noisy).
  destruct (run_cases w fuel argv0 spec cmd rest user (Some g) Hsplit)
    as [(t0 & _ & -> & ->) | (t0 & uid & gid & pw & G & e & _ & Hv & -> & ->)];
    [auto|].
  assert (Hg : g <> EmptyString) by (intros ->; destruct Hin).
  inversion Hv; subst;
    try match goal with H : Some _ = None \/ Some _ = Some _ |- _ =>
          destruct H; congruence end;
    try match goal with H : Some _ = Some _ |- _ => injection H as <- end.
  - exfalso. rewrite List.Forall_forall in H1. apply (H1 tok Hin Hnone).
  - exfalso. rewrite List.Forall_forall in H1. apply (H1 tok Hin Hnone).
  - auto.
  - exfalso. rewrite tokens_unfold in Hin.
    match goal with H : strtok _ _ = None |- _ => rewrite H in Hin end.
    destruct Hin.
Qed.

Lemma X6_unknown_group_witness :
  snd (run w_demo 2 "su-exec" ["root:staff,nogroup"; "id"]) = Exited 1 /\
  List.filter is_idchange
    (fst (run w_demo 2 "su-exec" ["root:staff,nogroup"; "id"])) = [] /\
  List.filter is_exec
    (fst (run w_demo 2 "su-exec" ["root:staff,nogroup"; "id"])) = [].
Proof.
  apply (X6_unknown_group w_demo 2 "su-exec" "root:staff,nogroup" "id" []
           "root" "staff,nogroup" "nogroup").
  - reflexivity.
  - vm_compute. auto.
  - reflexivity.
Defined.

(** ** Calls that the kernel refuses *)

Lemma group_verdict_not_transition (w : World) (group : option string)
  (gid : Z) (pw : option passwd) (G : list event) (e : group_end)
  (ev : event) :
  group_verdict w group gid pw G e -> In ev G ->
  (forall g, ev <> Setgid g) /\ (forall u, ev <> Setuid u) /\
  (forall f a, ev <> Execvp f a).
Proof.
  intros Hv Hin.
  destruct (group_verdict_in _ _ _ _ _ _ _ Hv Hin)
    as [(p & n & _ & _ & ->) | (n & l & -> & _)]; repeat split; discriminate.
Qed.

(** X7: when the kernel refuses [setgroups], the run ends with status 1
    and neither [setgid] nor [setuid] nor [execvp] is called. *)
Theorem X7_setgroups_refused (w : World) (fuel : nat)
  (argv0 spec cmd : string) (rest : list string) (n : Z) (l : list slot) :
  In (Setgroups n l) (fst (run w fuel argv0 (spec :: cmd :: rest))) ->
  w_setgroups_ok w n l = false ->
  snd (run w fuel argv0 (spec :: cmd :: rest)) = Exited 1 /\
  (forall g, ~ In (Setgid g) (fst (run w fuel argv0 (spec :: cmd :: rest)))) /\
  (forall u, ~ In (Setuid u) (fst (run w fuel argv0 (spec :: cmd :: rest)))) /\
  (forall f a, ~ In (Execvp f a) (fst (run w fuel argv0 (spec :: cmd :: rest)))).
Proof.
  intros Hin Hok.
  destruct (split_spec spec) as [user group] eqn:Hsplit.
  destruct (run_cases w fuel argv0 spec cmd rest user group Hsplit)
    as [(t0 & _ & Htr & _) | (t0 & uid & gid & pw & G & e & _ & Hv & Htr & Hout)].
  { apply in_noisy in Hin; [|reflexivity]. rewrite Htr in Hin. destruct Hin. }
  assert (He : e = Ended (Exited 1)).
  { destruct (run_event _ _ _ _ _ Htr Hin eq_refl) as [? | [HG | HT]];
      [discriminate | |].
    - destruct (group_verdict_in _ _ _ _ _ _ _ Hv HG)
        as [(p & m & _ & _ & ?) | (n' & l' & [= <- <-] & [[Hok' _] | [_ He]])];
        [discriminate | congruence | exact He].
    - destruct e as [g|o]; [|destruct HT].
      destruct (transition_trace_in _ _ _ _ _ _ HT) as [? | [[? _] | [? _]]];
        discriminate. }
  subst e. rewrite app_nil_r in Htr.
  split; [exact Hout|].
  repeat split; intros; intros Hin';
    (apply in_noisy in Hin'; [|reflexivity]); rewrite Htr in Hin';
    (destruct Hin' as [? | HG]; [discriminate|]);
    destruct (group_verdict_not_transition _ _ _ _ _ _ _ Hv HG) as (H1 & H2 & H3);
    [eapply H1 | eapply H2 | eapply H3]; reflexivity.
Qed.

Lemma X7_setgroups_refused_witness :
  snd (run w_user 2 "su-exec" ["app"; "id"]) = Exited 1 /\
  (forall g, ~ In (Setgid g) (fst (run w_user 2 "su-exec" ["app"; "id"]))) /\
  (forall u, ~ In (Setuid u) (fst (run w_user 2 "su-exec" ["app"; "id"]))) /\
  (forall f a, ~ In (Execvp f a) (fst (run w_user 2 "su-exec" ["app"; "id"]))).
Proof.
  apply (X7_setgroups_refused w_user 2 "su-exec" "app" "id" [] 1 [Some 1000]).
  - vm_compute. tauto.
  - reflexivity.
Defined.

(** X8: when the kernel refuses [setgid], the run ends with status 1
    without [setuid] and without [execvp]; when it refuses [setuid], the
    run ends with status 1 without [execvp]. *)
Theorem X8_setgid_setuid_refused (w : World) (fuel : nat)
  (argv0 spec cmd : string) (rest : list string) (id : Z) :
  (In (Setgid id) (fst (run w fuel argv0 (spec :: cmd :: rest))) ->
   w_setgid_ok w id = false ->
   snd (run w fuel argv0 (spec :: cmd :: rest)) = Exited 1 /\
   (forall u, ~ In (Setuid u) (fst (run w fuel argv0 (spec :: cmd :: rest)))) /\
   (forall f a, ~ In (Execvp f a) (fst (run w fuel argv0 (spec :: cmd :: rest))))) /\
  (In (Setuid id) (fst (run w fuel argv0 (spec :: cmd :: rest))) ->
   w_setuid_ok w id = false ->
   snd (run w fuel argv0 (spec :: cmd :: rest)) = Exited 1 /\
   (forall f a, ~ In (Execvp f a) (fst (run w fuel argv0 (spec :: cmd :: rest))))).
Proof.
  destruct (split_spec spec) as [user group] eqn:Hsplit.
  destruct (run_cases w fuel argv0 spec cmd rest user group Hsplit)
    as [(t0 & _ & Htr & _) | (t0 & uid & gid & pw & G & e & _ & Hv & Htr & Hout)].
  { split; intros Hin _; (apply in_noisy in Hin; [|reflexivity]);
      rewrite Htr in Hin; destruct Hin. }
  assert (Hlater : forall ev, In ev (fst (run w fuel argv0 (spec :: cmd :: rest))) ->
            (exists u, ev = Setuid u) \/ (exists f a, ev = Execvp f a) \/
            (exists g, ev = Setgid g) ->
            exists g, e = Handed g /\
              In ev (transition_trace w uid g cmd (cmd :: rest))).
  { intros ev Hin Hkind.
    assert (Hn : noisy ev = true)
      by (destruct Hkind as [[? ->] | [(? & ? & ->) | [? ->]]]; reflexivity).
    destruct (run_event _ _ _ _ _ Htr Hin Hn) as [-> | [HG | HT]].
    - destruct Hkind as [[? ?] | [(? & ? & ?) | [? ?]]]; discriminate.
    - destruct (group_verdict_not_transition _ _ _ _ _ _ _ Hv HG) as (H1 & H2 & H3).
      destruct Hkind as [[? ->] | [(? & ? & ->) | [? ->]]];
        [destruct (H2 _ eq_refl) | destruct (H3 _ _ eq_refl) | destruct (H1 _ eq_refl)].
    - destruct e as [g|o]; [eauto | destruct HT]. }
  split; intros Hin Hok.
  - destruct (Hlater _ Hin) as (g & -> & HT); [eauto|].
    destruct (transition_trace_in _ _ _ _ _ _ HT) as [[= ->] | [[? _] | [? _]]];
      try discriminate.
    unfold transition_outcome in Hout. rewrite Hok in Hout.
    split; [exact Hout|].
    split; [intros u Hu | intros f a Hf].
    + destruct (Hlater _ Hu) as (g' & [= <-] & HT'); [eauto|].
      destruct (transition_trace_in _ _ _ _ _ _ HT') as [? | [[_ ?] | [? _]]];
        congruence.
    + destruct (Hlater _ Hf) as (g' & [= <-] & HT'); [eauto 6|].
      destruct (transition_trace_in _ _ _ _ _ _ HT') as [? | [[? _] | [_ [? _]]]];
        congruence.
  - destruct (Hlater _ Hin) as (g & -> & HT); [eauto|].
    destruct (transition_trace_in _ _ _ _ _ _ HT) as [? | [[[= ->] Hg] | [? _]]];
      try discriminate.
    unfold transition_outcome in Hout. rewrite Hg, Hok in Hout.
    split; [exact Hout|]. intros f a Hf.
    destruct (Hlater _ Hf) as (g' & [= <-] & HT'); [eauto 6|].
    destruct (transition_trace_in _ _ _ _ _ _ HT') as [? | [[? _] | [_ [_ ?]]]];
      congruence.
Qed.

Lemma X8_setgid_setuid_refused_witness :
  (snd (run w_nomap 2 "su-exec" ["root:staff"; "id"]) = Exited 1 /\
   (forall u, ~ In (Setuid u) (fst (run w_nomap 2 "su-exec" ["root:staff"; "id"]))) /\
   (forall f a, ~ In (Execvp f a) (fst (run w_nomap 2 "su-exec" ["root:staff"; "id"])))) /\
  (snd (run w_user 2 "su-exec" ["1234"; "id"]) = Exited 1 /\
   (forall f a, ~ In (Execvp f a) (fst (run w_user 2 "su-exec" ["1234"; "id"])))).
Proof.
  split.
  - apply (proj1 (X8_setgid_setuid_refused w_nomap 2 "su-exec" "root:staff" "id" [] 50)).
    + vm_compute. tauto.
    + reflexivity.
  - apply (proj2 (X8_setgid_setuid_refused w_user 2 "su-exec" "1234" "id" [] 1234)).
    + vm_compute. tauto.
    + reflexivity.
Defined.

(** ** The command *)

Lemma filter_none {A : Type} (P : A -> bool) (l : list A) :
  (forall x, In x l -> P x = false) -> List.filter P l = [].
Proof.
  induction l as [|a l IH]; intros H; [reflexivity|]. simpl.
  rewrite (H a) by (left; reflexivity).
  apply IH. intros x Hx. apply H. right. exact Hx.
Qed.

(** X9: the only [execvp] of a run is for the second positional
    argument, with that argument and all the following ones as its
    argument vector, and it is the last call of the run, right after
    [setgid] and [setuid]; no [execvp] comes before it.  When it fails
    the run ends with status 1, the identity already changed; when it
    succeeds the run ends as that command. *)
Theorem X9_exec_of_the_command (w : World) (fuel : nat)
  (argv0 spec cmd : string) (rest : list string) (f : string)
  (a : list string) :
  In (Execvp f a) (fst (run w fuel argv0 (spec :: cmd :: rest))) ->
  f = cmd /\ a = cmd :: rest /\
  (exists pre g u,
     List.filter noisy (fst (run w fuel argv0 (spec :: cmd :: rest)))
       = pre ++ [Setgid g; Setuid u; Execvp f a] /\
     List.filter is_exec pre = []) /\
  (w_execvp_ok w f a = false ->
     snd (run w fuel argv0 (spec :: cmd :: rest)) = Exited 1) /\
  (w_execvp_ok w f a = true ->
     exists env, snd (run w fuel argv0 (spec :: cmd :: rest)) = Replaced f a env).
Proof.
  intros Hin.
  destruct (split_spec spec) as [user group] eqn:Hsplit.
  destruct (run_cases w fuel argv0 spec cmd rest user group Hsplit)
    as [(t0 & _ & Htr & _) | (t0 & uid & gid & pw & G & e & _ & Hv & Htr & Hout)].
  { apply in_noisy in Hin; [|reflexivity]. rewrite Htr in Hin. destruct Hin. }
  destruct (run_event _ _ _ _ _ Htr Hin eq_refl) as [? | [HG | HT]];
    [discriminate | |].
  { destruct (group_verdict_not_transition _ _ _ _ _ _ _ Hv HG) as (_ & _ & H3).
    destruct (H3 _ _ eq_refl). }
  destruct e as [g|o]; [|destruct HT].
  destruct (transition_trace_in _ _ _ _ _ _ HT)
    as [? | [[? _] | [[= -> ->] [Hg Hu]]]]; try discriminate.
  split; [reflexivity|]. split; [reflexivity|].
  unfold transition_outcome in Hout. rewrite Hg, Hu in Hout. simpl in Hout.
  split; [|split].
  - exists (Setenv "HOME" (home_of pw) :: G), g, uid. split.
    + rewrite Htr. unfold transition_trace. rewrite Hg, Hu. reflexivity.
    + cbn [List.filter is_exec]. apply filter_none. intros ev Hev.
      destruct (group_verdict_not_transition _ _ _ _ _ _ _ Hv Hev)
        as (_ & _ & H3).
      destruct ev; try reflexivity. destruct (H3 _ _ eq_refl).
  - intros Hok. rewrite Hok in Hout. exact Hout.
  - intros Hok. rewrite Hok in Hout. eauto.
Qed.

Lemma X9_exec_of_the_command_witness :
  "nosuchcmd"%string = "nosuchcmd"%string /\
  ["nosuchcmd"; "-v"]%string = ["nosuchcmd"; "-v"]%string /\
  (exists pre g u,
     List.filter noisy (fst (run w_nomap 2 "su-exec" ["root"; "nosuchcmd"; "-v"]))
       = pre ++ [Setgid g; Setuid u; Execvp "nosuchcmd" ["nosuchcmd"; "-v"]] /\
     List.filter is_exec pre = []) /\
  (w_execvp_ok w_nomap "nosuchcmd" ["nosuchcmd"; "-v"] = false ->
     snd (run w_nomap 2 "su-exec" ["root"; "nosuchcmd"; "-v"]) = Exited 1) /\
  (w_execvp_ok w_nomap "nosuchcmd" ["nosuchcmd"; "-v"] = true ->
     exists env,
       snd (run w_nomap 2 "su-exec" ["root"; "nosuchcmd"; "-v"])
       = Replaced "nosuchcmd" ["nosuchcmd"; "-v"] env).
Proof.
  apply (X9_exec_of_the_command w_nomap 2 "su-exec" "root" "nosuchcmd" ["-v"%string]).
  vm_compute. tauto.
Defined.

(** ** Exit statuses *)

Lemma ends_with_stderr_app (t1 t2 : list event) :
  ends_with_stderr t2 -> ends_with_stderr (t1 ++ t2).
Proof.
  intros (t' & fmt & arg & ->). exists (t1 ++ t'), fmt, arg.
  apply app_assoc.
Qed.

Lemma err_tail_ret {A : Type} (a : A) : err_tail (ret a).
Proof. intros env t n H. discriminate H. Qed.

Lemma err_tail_emit (e : event) : err_tail (emit e).
Proof. intros env t n H. discriminate H. Qed.

Lemma err_tail_setenv (name value : string) : err_tail (setenv name value).
Proof. intros env t n H. discriminate H. Qed.

Lemma err_tail_stop {A : Type} (o : outcome) :
  (forall n, o <> Exited n) -> err_tail (@stop A o).
Proof. intros Ho env t n [= _ ->]. destruct (Ho n eq_refl). Qed.

Lemma err_tail_err {A : Type} (fmt : string) (arg : fmt_arg) :
  err_tail (@err A 1 fmt arg).
Proof.
  intros env t n [= <- <-]. split; [reflexivity|].
  exists [], fmt, arg. reflexivity.
Qed.

Lemma err_tail_bind {A B : Type} (m : M A) (f : A -> M B) :
  err_tail m -> (forall a, err_tail (f a)) -> err_tail (bind m f).
Proof.
  intros Hm Hf env t n H.
  apply bind_inv in H as [(t1 & a & env1 & t2 & _ & E2 & ->) | (o & E1 & [= <-])].
  - destruct (Hf a env1 t2 n E2) as [-> Hend].
    split; [reflexivity | apply ends_with_stderr_app; exact Hend].
  - apply (Hm env t n E1).
Qed.

Lemma err_tail_execvp (w : World) (file : string) (argv : list string) :
  err_tail (execvp w file argv).
Proof.
  intros env t n. unfold execvp.
  destruct (w_execvp_ok w file argv); discriminate.
Qed.

Ltac err_tail_tac :=
  repeat first
    [ apply err_tail_ret | apply err_tail_emit | apply err_tail_err
    | apply err_tail_setenv | apply err_tail_execvp
    | apply err_tail_stop; discriminate
    | apply err_tail_bind; [|intros ?]
    | match goal with
      | |- err_tail (match ?x with _ => _ end) => destruct x
      end ].

Lemma err_tail_get_gid (w : World) (ref : string) : err_tail (get_gid w ref).
Proof. unfold get_gid, getgrnam. err_tail_tac. Qed.

Lemma err_tail_resolve_user (w : World) (user : string) (uid gid : Z) :
  err_tail (main_resolve_user w user uid gid).
Proof. unfold main_resolve_user, getpwnam, getpwuid. err_tail_tac. Qed.

Lemma err_tail_fill_gidlist (w : World) (toks : list string) :
  forall (i : nat) (l : list slot), err_tail (main_fill_gidlist w toks i l).
Proof.
  induction toks as [|token toks IH]; intros i l; cbn [main_fill_gidlist].
  - apply err_tail_ret.
  - apply err_tail_bind; [apply err_tail_get_gid|]. intros g.
    destruct (S i <? length l)%nat; [apply IH|].
    apply err_tail_stop. discriminate.
Qed.

Lemma err_tail_explicit_groups (w : World) (group : option string) (gid : Z)
  (pw : option passwd) : err_tail (main_explicit_groups w group gid pw).
Proof.
  unfold main_explicit_groups, setgroups.
  destruct group as [[|c g]|]; try apply err_tail_ret.
  destruct (_ =? 1)%nat.
  - apply err_tail_bind; [apply err_tail_get_gid|]. intros x. err_tail_tac.
  - destruct (strtok "," (String c g)) as [[token save]|];
      [|apply err_tail_stop; discriminate].
    apply err_tail_bind; [apply err_tail_get_gid|]. intros x.
    apply err_tail_bind; [apply err_tail_fill_gidlist|]. intros l.
    err_tail_tac.
Qed.

Lemma err_tail_grouplist (w : World) (fuel : nat) (pw : option passwd)
  (gid : Z) : err_tail (main_grouplist w fuel pw gid).
Proof.
  destruct pw as [p|]; [|apply err_tail_ret]. cbn [main_grouplist].
  generalize O at 1. generalize (@nil slot). generalize 0.
  induction fuel as [|fuel IH]; intros n glist k; cbn [main_grouplist_loop].
  - apply err_tail_stop. discriminate.
  - apply err_tail_bind; [apply err_tail_emit|]. intros _.
    destruct (w_getgrouplist w k (pw_name p) gid glist n) as [[r n'] glist'].
    destruct (0 <=? r).
    + unfold setgroups. err_tail_tac.
    + destruct (w_realloc_ok w k n'); [apply IH | apply err_tail_err].
Qed.

Lemma err_tail_transition (w : World) (uid gid : Z) (cmd : string)
  (argv : list string) : err_tail (main_transition w uid gid cmd argv).
Proof. unfold main_transition, setgid, setuid. err_tail_tac. Qed.

Lemma never_returns_bind {A B : Type} (m : M A) (f : A -> M B) :
  (forall a, never_returns (f a)) -> never_returns (bind m f).
Proof.
  intros Hf env env' t b H.
  apply bind_inv in H as [(t1 & a & env1 & t2 & _ & E2 & _) | (o & _ & ?)];
    [|discriminate].
  apply (Hf a env1 env' t2 b E2).
Qed.

Lemma never_returns_transition (w : World) (uid gid : Z) (cmd : string)
  (argv : list string) : never_returns (main_transition w uid gid cmd argv).
Proof.
  intros env env' t a H.
  pose proof (transition_verdict w uid gid cmd argv env) as [_ Hr].
  rewrite H in Hr. discriminate Hr.
Qed.

Lemma main_body (w : World) (fuel : nat) (argv0 spec cmd : string)
  (rest : list string) :
  err_tail (main w fuel argv0 (spec :: cmd :: rest)) /\
  never_returns (main w fuel argv0 (spec :: cmd :: rest)).
Proof.
  unfold main, getuid, getgid. split.
  - apply err_tail_bind; [err_tail_tac|]. intros uid.
    apply err_tail_bind; [err_tail_tac|]. intros gid.
    destruct (split_spec spec) as [user group].
    apply err_tail_bind; [apply err_tail_resolve_user|]. intros [[uid' gid'] pw].
    apply err_tail_bind; [apply err_tail_setenv|]. intros _.
    apply err_tail_bind; [apply err_tail_explicit_groups|]. intros [gid'' pw'].
    apply err_tail_bind; [apply err_tail_grouplist|]. intros _.
    apply err_tail_transition.
  - apply never_returns_bind. intros uid.
    apply never_returns_bind. intros gid.
    destruct (split_spec spec) as [user group].
    apply never_returns_bind. intros [[uid' gid'] pw].
    apply never_returns_bind. intros _.
    apply never_returns_bind. intros [gid'' pw'].
    apply never_returns_bind. intros _.
    apply never_returns_transition.
Qed.

(** X10: a run exits with status 0 only to print the usage, for fewer
    than two positional arguments.  Every other exit has status 1 and
    comes right after a message on standard error. *)
Theorem X10_exit_status (w : World) (fuel : nat) (argv0 : string)
  (args : list string) (tr : list event) (n : Z) :
  run w fuel argv0 args = (tr, Exited n) ->
  (n = 0 /\ (length args < 2)%nat) \/
  (n = 1 /\ (2 <= length args)%nat /\ ends_with_stderr tr).
Proof.
  intros Hrun.
  destruct args as [|spec [|cmd rest]].
  1,2: rewrite run_usage in Hrun by (simpl; lia); injection Hrun as _ <-;
       left; simpl; split; [reflexivity | lia].
  right. unfold run in Hrun.
  destruct (main_body w fuel argv0 spec cmd rest) as [Herr Hnever].
  destruct (main w fuel argv0 (spec :: cmd :: rest) (w_environ w))
    as [t [a env'|o]] eqn:E.
  - destruct (Hnever _ _ _ _ E).
  - injection Hrun as <- ->.
    destruct (Herr _ _ _ E) as [-> Hend].
    split; [reflexivity|]. split; [simpl; lia | exact Hend].
Qed.

Lemma X10_exit_status_witness :
  (1 = 0 /\ (length ["root:nogroup"; "id"] < 2)%nat) \/
  (1 = 1 /\ (2 <= length ["root:nogroup"; "id"])%nat /\
   ends_with_stderr
     [Getuid; Getgid; Getpwnam "root"; Setenv "HOME" "/root";
      Getgrnam "nogroup"; Stderr "getgrnam(%s)" (ArgStr "nogroup")]).
Proof.
  apply (X10_exit_status w_demo 2 "su-exec" ["root:nogroup"; "id"]).
  vm_compute. reflexivity.
Defined.

(** ** The NULL token *)

(** X11: a run crashes in exactly one case: the user was resolved and
    the group part is not empty and made of commas only, so that the
    first [strtok] answers NULL and [get_gid] reads it. *)
Theorem X11_crash_on_commas_only (w : World) (fuel : nat)
  (argv0 spec cmd : string) (rest : list string) (user : string)
  (group : option string) :
  split_spec spec = (user, group) ->
  (snd (run w fuel argv0 (spec :: cmd :: rest)) = Crashed <->
   (exists t0 a env,
      main_resolve_user w user (w_getuid w) (w_getgid w) (w_environ w)
        = (t0, Next a env)) /\
   exists g, group = Some g /\ g <> EmptyString /\
             str_forall (fun c => Ascii.eqb c ",") g = true).
Proof.
  intros Hsplit.
  assert (Hnull : forall g, strtok "," g = None <->
            str_forall (fun c => Ascii.eqb c ",") g = true).
  { intros g. rewrite <- skip_delim_all. unfold strtok.
    destruct (skip_delim "," g); [tauto|]. split; discriminate. }
  destruct (run_cases w fuel argv0 spec cmd rest user group Hsplit)
    as [(t0 & E0 & _ & Hout) | (t0 & uid & gid & pw & G & e & E0 & Hv & _ & Hout)].
  { rewrite Hout, E0. split; [discriminate|].
    intros [(? & ? & ? & ?) _]. discriminate. }
  rewrite Hout. clear Hout. split.
  - intros He. split; [eauto|].
    destruct e as [x|o].
    + unfold transition_outcome in He.
      destruct (_ && _ && _); discriminate.
    + subst o. inversion Hv; subst. exists g. rewrite <- Hnull. auto.
  - intros [_ (g & -> & Hg & Hall)]. apply Hnull in Hall.
    assert (Htoks : tokens "," g = []) by (rewrite tokens_unfold, Hall; reflexivity).
    inversion Hv; subst;
      try match goal with H : Some _ = None \/ Some _ = Some _ |- _ =>
            destruct H; congruence end;
      try match goal with H : Some _ = Some _ |- _ => injection H as <- end;
      try reflexivity.
    + rewrite Htoks in *. discriminate.
    + rewrite Htoks in *. discriminate.
    + rewrite Htoks in *. match goal with H : In _ [] |- _ => destruct H end.
Qed.

Lemma X11_crash_on_commas_only_witness :
  snd (run w_demo 2 "su-exec" ["root:,,"; "id"]) = Crashed <->
  (exists t0 a env,
     main_resolve_user w_demo "root" (w_getuid w_demo) (w_getgid w_demo)
       (w_environ w_demo) = (t0, Next a env)) /\
  exists g, Some ",,"%string = Some g /\ g <> EmptyString /\
            str_forall (fun c => Ascii.eqb c ",") g = true.
Proof.
  apply (X11_crash_on_commas_only w_demo 2 "su-exec" "root:,," "id" []
           "root" (Some ",,"%string)).
  reflexivity.
Defined.

(** ** Runs that reach the command *)

Lemma transition_all_ok (w : World) (uid gid : Z) (cmd : string)
  (argv : list string) (env : gmap string string) :
  w_setgid_ok w gid = true -> w_setuid_ok w uid = true ->
  w_execvp_ok w cmd argv = true ->
  transition_trace w uid gid cmd argv = [Setgid gid; Setuid uid; Execvp cmd argv] /\
  transition_outcome w uid gid cmd argv env = Replaced cmd argv env.
Proof.
  unfold transition_trace, transition_outcome. intros -> -> ->. auto.
Qed.

(** X12: an explicit list of groups, end to end.  When the group part
    has no empty token, every token has a gid, and the kernel accepts
    the calls, the run makes exactly these calls, in this order:
    [setenv] of [HOME], [setgroups] with the gids of the tokens in their
    order, [setgid] with the first of them, [setuid] with the resolved
    uid, and [execvp] of the command, which replaces the process. *)
Theorem X12_explicit_groups_end_to_end (w : World) (fuel : nat)
  (argv0 spec cmd : string) (rest : list string) (user g : string)
  (t0 : list event) (uid gid : Z) (pw : option passwd) (gids : list Z)
  (first : Z) :
  split_spec spec = (user, Some g) -> g <> EmptyString ->
  main_resolve_user w user (w_getuid w) (w_getgid w) (w_environ w)
    = (t0, Next (uid, gid, pw) (w_environ w)) ->
  length (tokens "," g) = (str_occurrences g "," + 1)%nat ->
  Forall2 (fun tok x => gid_of_token w tok = Some x) (tokens "," g) gids ->
  head gids = Some first ->
  w_setgroups_ok w (Z.of_nat (length gids)) (Some <$> gids) = true ->
  w_setgid_ok w first = true -> w_setuid_ok w uid = true ->
  w_execvp_ok w cmd (cmd :: rest) = true ->
  List.filter noisy (fst (run w fuel argv0 (spec :: cmd :: rest)))
    = [Setenv "HOME" (home_of pw);
       Setgroups (Z.of_nat (length gids)) (Some <$> gids);
       Setgid first; Setuid uid; Execvp cmd (cmd :: rest)] /\
  snd (run w fuel argv0 (spec :: cmd :: rest))
    = Replaced cmd (cmd :: rest) (<["HOME" := home_of pw]> (w_environ w)).
Proof.
  intros Hsplit Hg E0 Hcnt Hgids Hfirst Hgroups Hgid Huid Hexec.
  destruct (resolve_user_run _ _ _ _ _ _ _ E0) as [Hq0 _].
  set (env1 := <["HOME" := home_of pw]> (w_environ w)).
  destruct (explicit_groups_exact w g gid pw env1 gids Hg Hcnt Hgids Hgroups)
    as (t1 & first' & Hfirst' & E1 & Ht1).
  assert (first' = first) by congruence. subst first'.
  pose proof (transition_verdict w uid first cmd (cmd :: rest) env1) as [Ht Hr].
  destruct (transition_all_ok w uid first cmd (cmd :: rest) env1 Hgid Huid Hexec)
    as [Htrace Hout].
  rewrite Htrace in Ht. rewrite Hout in Hr.
  rewrite run_unfold, Hsplit, E0. cbv beta iota zeta. fold env1.
  rewrite E1. cbn [main_grouplist].
  change (ret tt env1) with (@nil event, Next tt env1). cbv beta iota.
  destruct (main_transition w uid first cmd (cmd :: rest) env1) as [t3 r3].
  cbn [fst snd] in Ht, Hr. subst r3. cbn [fst snd].
  split; [|reflexivity].
  simpl. rewrite List.filter_app, Hq0. simpl.
  rewrite List.filter_app, Ht1, Ht. reflexivity.
Qed.

Lemma X12_explicit_groups_end_to_end_witness :
  List.filter noisy (fst (run w_demo 2 "su-exec" ["0:staff,7"; "/bin/true"]))
    = [Setenv "HOME" (home_of (Some root_pw));
       Setgroups (Z.of_nat (length [50; 7])) (Some <$> [50; 7]);
       Setgid 50; Setuid 0; Execvp "/bin/true" ["/bin/true"]] /\
  snd (run w_demo 2 "su-exec" ["0:staff,7"; "/bin/true"])
    = Replaced "/bin/true" ["/bin/true"]
        (<["HOME" := home_of (Some root_pw)]> (w_environ w_demo)).
Proof.
  apply (X12_explicit_groups_end_to_end w_demo 2 "su-exec" "0:staff,7"
           "/bin/true" [] "0" "staff,7" [Getpwuid 0] 0 0 (Some root_pw)
           [50; 7] 50).
  - reflexivity.
  - discriminate.
  - vm_compute. reflexivity.
  - vm_compute. reflexivity.
  - change (tokens "," "staff,7") with ["staff"; "7"]%string.
    repeat constructor.
  - reflexivity.
  - vm_compute. reflexivity.
  - reflexivity.
  - reflexivity.
  - reflexivity.
Defined.

Lemma grouplist_loop_consistent (w : World) (name : string) (gid : Z)
  (members : list Z) (fuel : nat) (env : gmap string string) :
  consistent_grouplist w name gid members ->
  w_realloc_ok w O (Z.of_nat (length members)) = true ->
  (forall n l, w_setgroups_ok w n l = true) ->
  (2 <= fuel)%nat ->
  exists t buf,
    main_grouplist_loop w fuel O name gid [] 0 env = (t, Next tt env) /\
    List.filter is_idchange t = [Setgroups (Z.of_nat (length members)) buf] /\
    List.filter is_exec t = [] /\
    take (length members) buf = Some <$> members.
Proof.
  intros Hcons Hrealloc Hgroups Hfuel.
  destruct fuel as [|[|fuel]]; try lia. clear Hfuel.
  cbn [main_grouplist_loop].
  rewrite (bind_next _ _ env env [Getgrouplist name gid 0] tt eq_refl).
  pose proof (Hcons O [] 0) as H1.
  destruct (w_getgrouplist w O name gid [] 0) as [[r1 n1] buf1].
  destruct H1 as [-> H1].
  destruct (Z.of_nat (length members) <=? 0).
  - destruct H1 as [Hr Hbuf]. apply Z.leb_le in Hr. rewrite Hr.
    unfold setgroups, bind, emit, ret. simpl. rewrite Hgroups.
    eexists _, buf1. split; [reflexivity|]. simpl. auto.
  - apply Z.leb_gt in H1. rewrite H1, Hrealloc.
    rewrite (bind_next _ _ env env
               [Getgrouplist name gid (Z.of_nat (length members))] tt eq_refl).
    pose proof (Hcons 1%nat (resize buf1 (Z.of_nat (length members)))
                  (Z.of_nat (length members))) as H2.
    destruct (w_getgrouplist w 1 name gid (resize buf1 (Z.of_nat (length members)))
                (Z.of_nat (length members))) as [[r2 n2] buf2].
    destruct H2 as [-> H2]. rewrite Z.leb_refl in H2.
    destruct H2 as [Hr Hbuf]. apply Z.leb_le in Hr. rewrite Hr.
    unfold setgroups, bind, emit, ret. simpl. rewrite Hgroups.
    eexists _, buf2. split; [reflexivity|]. simpl. auto.
Qed.

(** X13: the groups of the user record, end to end.  Without a group
    part, for a user with a passwd record, on a system whose group-list
    query is consistent, whose [realloc] gives the block asked for and
    whose kernel accepts the calls, two rounds of the loop are enough:
    the run is replaced by the command, and the changes of identity are
    [setgroups] with the groups the system reports for the user, then
    [setgid] with the gid of the record, then [setuid] with its uid. *)
Theorem X13_derived_groups_end_to_end (w : World) (fuel : nat)
  (argv0 spec cmd : string) (rest : list string) (user : string)
  (group : option string) (t0 : list event) (uid gid : Z) (p : passwd)
  (members : list Z) :
  split_spec spec = (user, group) ->
  group = None \/ group = Some EmptyString ->
  main_resolve_user w user (w_getuid w) (w_getgid w) (w_environ w)
    = (t0, Next (uid, gid, Some p) (w_environ w)) ->
  consistent_grouplist w (pw_name p) gid members ->
  w_realloc_ok w O (Z.of_nat (length members)) = true ->
  (2 <= fuel)%nat ->
  (forall n l, w_setgroups_ok w n l = true) ->
  w_setgid_ok w gid = true -> w_setuid_ok w uid = true ->
  w_execvp_ok w cmd (cmd :: rest) = true ->
  snd (run w fuel argv0 (spec :: cmd :: rest))
    = Replaced cmd (cmd :: rest) (<["HOME" := pw_dir p]> (w_environ w)) /\
  uid = pw_uid p /\ gid = pw_gid p /\
  exists buf,
    List.filter is_idchange (fst (run w fuel argv0 (spec :: cmd :: rest)))
      = [Setgroups (Z.of_nat (length members)) buf; Setgid gid; Setuid uid] /\
    take (length members) buf = Some <$> members.
Proof.
  intros Hsplit Hnone E0 Hcons Hrealloc Hfuel Hgroups Hgid Huid Hexec.
  destruct (resolve_user_run _ _ _ _ _ _ _ E0) as [Hq0 _].
  destruct (resolve_user_record _ _ _ _ _ _ _ _ _ _ E0) as [Hu Hg].
  set (env1 := <["HOME" := pw_dir p]> (w_environ w)).
  destruct (grouplist_loop_consistent w (pw_name p) gid members fuel env1
              Hcons Hrealloc Hgroups Hfuel) as (t2 & buf & E2 & Ht2 & _ & Hbuf).
  pose proof (transition_verdict w uid gid cmd (cmd :: rest) env1) as [Ht Hr].
  destruct (transition_all_ok w uid gid cmd (cmd :: rest) env1 Hgid Huid Hexec)
    as [Htrace Hout].
  rewrite Htrace in Ht. rewrite Hout in Hr.
  rewrite run_unfold, Hsplit, E0. cbv beta iota zeta.
  change (home_of (Some p)) with (pw_dir p). fold env1.
  assert (E1 : main_explicit_groups w group gid (Some p) env1
               = ([], Next (gid, Some p) env1))
    by (destruct Hnone as [-> | ->]; reflexivity).
  rewrite E1. cbn [main_grouplist]. rewrite E2.
  destruct (main_transition w uid gid cmd (cmd :: rest) env1) as [t3 r3].
  cbn [fst snd] in Ht, Hr. subst r3. cbn [fst snd].
  split; [reflexivity|]. split; [exact Hu|]. split; [exact Hg|].
  exists buf. split; [|exact Hbuf].
  simpl. rewrite List.filter_app.
  rewrite <- (filter_noisy_sub is_idchange t0 idchange_noisy), Hq0.
  simpl. rewrite List.filter_app, Ht2.
  rewrite <- (filter_noisy_sub is_idchange t3 idchange_noisy), Ht. reflexivity.
Qed.

Lemma X13_derived_groups_end_to_end_witness :
  snd (run w_demo 2 "su-exec" ["root"; "id"])
    = Replaced "id" ["id"] (<["HOME" := pw_dir root_pw]> (w_environ w_demo)) /\
  0 = pw_uid root_pw /\ 0 = pw_gid root_pw /\
  exists buf,
    List.filter is_idchange (fst (run w_demo 2 "su-exec" ["root"; "id"]))
      = [Setgroups (Z.of_nat (length [0; 10])) buf; Setgid 0; Setuid 0] /\
    take (length [0; 10]) buf = Some <$> [0; 10].
Proof.
  apply (X13_derived_groups_end_to_end w_demo 2 "su-exec" "root" "id" []
           "root" None [Getpwnam "root"] 0 0 root_pw [0; 10]).
  - reflexivity.
  - left. reflexivity.
  - reflexivity.
  - exact w_demo_consistent.
  - reflexivity.
  - lia.
  - reflexivity.
  - reflexivity.
  - reflexivity.
  - reflexivity.
Defined.

(** ** What decides the ids *)

(** X14: the group list is only ever queried when there is no group
    part and the user has a passwd record, and then for the name of that
    record and its gid. *)
Theorem X14_grouplist_query_arguments (w : World) (fuel : nat)
  (argv0 spec cmd : string) (rest : list string) (user : string)
  (group : option string) (name : string) (g n : Z) :
  split_spec spec = (user, group) ->
  In (Getgrouplist name g n) (fst (run w fuel argv0 (spec :: cmd :: rest))) ->
  (group = None \/ group = Some EmptyString) /\
  exists t0 p,
    main_resolve_user w user (w_getuid w) (w_getgid w) (w_environ w)
      = (t0, Next (pw_uid p, pw_gid p, Some p) (w_environ w)) /\
    name = pw_name p /\ g = pw_gid p.
Proof.
  intros Hsplit Hin.
  destruct (run_cases w fuel argv0 spec cmd rest user group Hsplit)
    as [(t0 & _ & Htr & _) | (t0 & uid & gid & pw & G & e & E0 & Hv & Htr & _)].
  { apply in_noisy in Hin; [|reflexivity]. rewrite Htr in Hin. destruct Hin. }
  destruct (run_event _ _ _ _ _ Htr Hin eq_refl) as [? | [HG | HT]];
    [discriminate | |].
  - destruct (group_verdict_in _ _ _ _ _ _ _ Hv HG)
      as [(p & m & Hnone & -> & [= -> -> ->]) | (? & ? & ? & _)];
      [|discriminate].
    destruct (resolve_user_record _ _ _ _ _ _ _ _ _ _ E0) as [-> ->].
    split; [exact Hnone|]. exists t0, p. auto.
  - destruct e as [x|o]; [|destruct HT].
    destruct (transition_trace_in _ _ _ _ _ _ HT) as [? | [[? _] | [? _]]];
      discriminate.
Qed.

Lemma X14_grouplist_query_arguments_witness :
  (@None string = None \/ @None string = Some EmptyString) /\
  exists t0 p,
    main_resolve_user w_demo "0" (w_getuid w_demo) (w_getgid w_demo)
      (w_environ w_demo)
      = (t0, Next (pw_uid p, pw_gid p, Some p) (w_environ w_demo)) /\
    "root"%string = pw_name p /\ 0 = pw_gid p.
Proof.
  apply (X14_grouplist_query_arguments w_demo 2 "su-exec" "0" "id" [] "0" None
           "root" 0 2).
  - reflexivity.
  - vm_compute. tauto.
Defined.

(** X15: the uid given to [setuid] is always the one resolved from the
    user part: the group part has no say in it.  Without a group part
    the gid given to [setgid] is the one resolved from the user part
    too. *)
Theorem X15_ids_from_user_part (w : World) (fuel : nat)
  (argv0 spec cmd : string) (rest : list string) (user : string)
  (group : option string) (id : Z) :
  split_spec spec = (user, group) ->
  (In (Setuid id) (fst (run w fuel argv0 (spec :: cmd :: rest))) ->
   exists t0 gid pw,
     main_resolve_user w user (w_getuid w) (w_getgid w) (w_environ w)
       = (t0, Next (id, gid, pw) (w_environ w))) /\
  (In (Setgid id) (fst (run w fuel argv0 (spec :: cmd :: rest))) ->
   group = None \/ group = Some EmptyString ->
   exists t0 uid pw,
     main_resolve_user w user (w_getuid w) (w_getgid w) (w_environ w)
       = (t0, Next (uid, id, pw) (w_environ w))).
Proof.
  intros Hsplit.
  destruct (run_cases w fuel argv0 spec cmd rest user group Hsplit)
    as [(t0 & _ & Htr & _) | (t0 & uid & gid & pw & G & e & E0 & Hv & Htr & _)].
  { split; intros Hin; (apply in_noisy in Hin; [|reflexivity]);
      rewrite Htr in Hin; destruct Hin. }
  split; intros Hin.
  - destruct (run_event _ _ _ _ _ Htr Hin eq_refl) as [? | [HG | HT]];
      [discriminate | |].
    + destruct (group_verdict_not_transition _ _ _ _ _ _ _ Hv HG) as (_ & H2 & _).
      destruct (H2 _ eq_refl).
    + destruct e as [x|o]; [|destruct HT].
      destruct (transition_trace_in _ _ _ _ _ _ HT) as [? | [[[= ->] _] | [? _]]];
        try discriminate. eauto.
  - intros Hnone.
    destruct (run_event _ _ _ _ _ Htr Hin eq_refl) as [? | [HG | HT]];
      [discriminate | |].
    + destruct (group_verdict_not_transition _ _ _ _ _ _ _ Hv HG) as (H1 & _ & _).
      destruct (H1 _ eq_refl).
    + destruct e as [x|o]; [|destruct HT].
      destruct (transition_trace_in _ _ _ _ _ _ HT) as [[= ->] | [[? _] | [? _]]];
        try discriminate.
      assert (x = gid).
      { inversion Hv; subst; try reflexivity.
        destruct Hnone as [? | ?]; congruence. }
      subst x. eauto.
Qed.

Lemma X15_ids_from_user_part_witness :
  exists t0 gid pw,
    main_resolve_user w_demo "1234" (w_getuid w_demo) (w_getgid w_demo)
      (w_environ w_demo)
      = (t0, Next (1234, gid, pw) (w_environ w_demo)).
Proof.
  apply (proj1 (X15_ids_from_user_part w_demo 2 "su-exec" "1234:staff" "id" []
                  "1234" (Some "staff"%string) 1234 eq_refl)).
  vm_compute. tauto.
Defined.

(** X16: a user given by the number of its uid and the same user given
    by name make the same run, but for the one lookup: [getpwuid] of the
    number in the first, [getpwnam] of the name in the second. *)
Theorem X16_uid_or_name (w : World) (fuel : nat)
  (argv0 spec1 spec2 cmd : string) (rest : list string)
  (num name : string) (group : option string) (p : passwd) :
  split_spec spec1 = (num, group) -> split_spec spec2 = (name, group) ->
  num <> EmptyString -> snd (strtol num) = EmptyString ->
  w_getpwuid w (to_id (fst (strtol num))) = Some p ->
  name <> EmptyString -> snd (strtol name) <> EmptyString ->
  w_getpwnam w name = Some p ->
  exists tl out,
    run w fuel argv0 (spec1 :: cmd :: rest)
      = (Getuid :: Getgid :: Getpwuid (to_id (fst (strtol num))) :: tl, out) /\
    run w fuel argv0 (spec2 :: cmd :: rest)
      = (Getuid :: Getgid :: Getpwnam name :: tl, out).
Proof.
  intros Hs1 Hs2 Hnum1 Hnum2 Hrec Hname1 Hname2 Hnam.
  rewrite !run_unfold, Hs1, Hs2.
  rewrite (resolve_user_number _ _ _ _ _ Hnum1 Hnum2), Hrec.
  rewrite (resolve_user_name _ _ _ _ _ Hname1 Hname2), Hnam.
  cbv beta iota zeta.
  destruct (main_explicit_groups w group (pw_gid p) (Some p) _)
    as [t1 [[gid' pw'] env2|o]]; [|eauto].
  destruct (main_grouplist w fuel pw' gid' env2) as [t2 [[] env3|o]]; [|eauto].
  destruct (main_transition w (pw_uid p) gid' cmd (cmd :: rest) env3)
    as [t3 [[] ?|o]]; eauto.
Qed.

Lemma X16_uid_or_name_witness :
  exists tl out,
    run w_demo 2 "su-exec" ["0:staff"; "id"]
      = (Getuid :: Getgid :: Getpwuid (to_id (fst (strtol "0"))) :: tl, out) /\
    run w_demo 2 "su-exec" ["root:staff"; "id"]
      = (Getuid :: Getgid :: Getpwnam "root" :: tl, out).
Proof.
  apply (X16_uid_or_name w_demo 2 "su-exec" "0:staff" "root:staff" "id" []
           "0" "root" (Some "staff"%string) root_pw).
  - reflexivity.
  - reflexivity.
  - discriminate.
  - reflexivity.
  - reflexivity.
  - discriminate.
  - discriminate.
  - reflexivity.
Defined.

(** ** The bound on the rounds of the loop *)

Lemma grouplist_loop_more_fuel (w : World) (fuel m : nat) :
  forall (k : nat) (name : string) (gid : Z) (glist : list slot) (n : Z)
    (env : gmap string string),
  snd (main_grouplist_loop w fuel k name gid glist n env) <> Stop Spinning ->
  main_grouplist_loop w (fuel + m) k name gid glist n env
  = main_grouplist_loop w fuel k name gid glist n env.
Proof.
  induction fuel as [|fuel IH]; intros k name gid glist n env Hleft.
  - destruct Hleft. reflexivity.
  - change (S fuel + m)%nat with (S (fuel + m)).
    cbn [main_grouplist_loop] in Hleft |- *.
    rewrite (bind_next _ _ env env [Getgrouplist name gid n] tt eq_refl) in Hleft.
    rewrite !(bind_next _ _ env env [Getgrouplist name gid n] tt eq_refl).
    destruct (w_getgrouplist w k name gid glist n) as [[r0 n'] glist'].
    destruct (0 <=? r0); [reflexivity|].
    destruct (w_realloc_ok w k n'); [|reflexivity].
    rewrite IH; [reflexivity | exact Hleft].
Qed.

(** The bound on the rounds is the embedding's, not the program's: a
    run that ended otherwise than by reaching it is the same run under
    every larger bound. *)
Lemma run_more_fuel (w : World) (fuel m : nat) (argv0 : string)
  (args : list string) :
  snd (run w fuel argv0 args) <> Spinning ->
  run w (fuel + m) argv0 args = run w fuel argv0 args.
Proof.
  destruct args as [|spec [|cmd rest]];
    try (intros _; rewrite !run_usage by (simpl; lia); reflexivity).
  rewrite !run_unfold.
  destruct (split_spec spec) as [user group].
  destruct (main_resolve_user w user (w_getuid w) (w_getgid w) (w_environ w))
    as [t0 [[[uid gid] pw] env0|o]]; [|reflexivity].
  cbv beta iota zeta.
  destruct (main_explicit_groups w group gid pw _)
    as [t1 [[gid' pw'] env2|o]]; [|reflexivity].
  destruct pw' as [p|]; [|reflexivity]. cbn [main_grouplist].
  intros Hleft.
  rewrite grouplist_loop_more_fuel; [reflexivity|].
  intros Hspin.
  destruct (main_grouplist_loop w fuel O (pw_name p) gid' [] 0 env2) as [t2 r2].
  simpl in Hspin. subst r2. apply Hleft. reflexivity.
Qed.

(** ** Signs and white space *)

(** X18: what [strtol] lets through besides digits.  White space and a
    '+' before the digits change nothing: the token is the same id as
    its digits alone.  A '-' before digits of value v, 0 < v <= 2^32,
    gives the id 2^32 - v; "-1" is the id 4294967295.  No name lookup is
    made for either. *)
Theorem X18_sign_and_white_space (w : World) (s ds : string) (neg : bool)
  (env : gmap string string) :
  integer_text s neg ds ->
  (neg = false -> get_gid w s env = get_gid w ds env) /\
  (neg = true -> 0 < decimal ds <= 2 ^ 32 ->
   get_gid w s env = ([], Next (2 ^ 32 - decimal ds) env)).
Proof.
  intros Htext.
  pose proof (strtol_integer_text s neg ds Htext) as E.
  destruct Htext as (ws & sg & _ & _ & _ & Hne & Hds).
  split.
  - intros ->.
    rewrite (get_gid_number w s) by (rewrite E; reflexivity).
    rewrite (get_gid_number w ds)
      by (rewrite (strtol_digits ds Hne Hds); reflexivity).
    rewrite E, (strtol_digits ds Hne Hds). reflexivity.
  - intros -> Hrange.
    rewrite (get_gid_number w s) by (rewrite E; reflexivity).
    rewrite E. cbn [fst]. f_equal. f_equal.
    unfold to_id, clamp_long, LONG_MIN, LONG_MAX.
    destruct (Z.ltb_spec (- decimal ds) (- 2 ^ 63)); [lia|].
    destruct (Z.ltb_spec (2 ^ 63 - 1) (- decimal ds)); [lia|].
    destruct (Z.eq_dec (decimal ds) (2 ^ 32)) as [-> | Hlt]; [reflexivity|].
    replace (- decimal ds) with (2 ^ 32 - decimal ds + (-1) * 2 ^ 32) by lia.
    rewrite Z.mod_add by lia.
    apply Z.mod_small. lia.
Qed.

Lemma X18_sign_and_white_space_witness :
  get_gid w_demo " -1" ∅ = ([], Next (2 ^ 32 - decimal "1") ∅).
Proof.
  refine (proj2 (X18_sign_and_white_space w_demo " -1" "1" true ∅ _) eq_refl _).
  - exists " "%string, "-"%string. repeat split; auto; discriminate.
  - vm_compute. split; [reflexivity | discriminate].
Defined.

(** ** The block given to [setgroups] *)

Lemma fill_gidlist_keeps (w : World) (toks : list string) :
  forall (i : nat) (l l' : list slot) (env env' : gmap string string)
    (t : list event),
  main_fill_gidlist w toks i l env = (t, Next l' env') ->
  length l' = length l /\ forall j, (j <= i)%nat -> l' !! j = l !! j.
Proof.
  induction toks as [|token toks IH]; intros i l l' env env' t Hrun.
  - injection Hrun as _ <- _. auto.
  - cbn [main_fill_gidlist] in Hrun.
    destruct (get_gid_run w token env) as (tg & Eg & _).
    destruct (gid_of_token w token) as [g|].
    + rewrite (bind_next _ _ _ _ _ _ Eg) in Hrun.
      destruct (S i <? length l)%nat; [|discriminate Hrun].
      destruct (main_fill_gidlist w toks (S i) (<[S i := Some g]> l) env)
        as [t' r'] eqn:E'.
      injection Hrun as _ ->.
      destruct (IH _ _ _ _ _ _ E') as [Hlen Hkeep].
      rewrite length_insert in Hlen. split; [exact Hlen|].
      intros j Hj. rewrite Hkeep by lia.
      apply list_lookup_insert_ne. lia.
    + rewrite (bind_stop _ _ _ _ _ Eg) in Hrun. discriminate Hrun.
Qed.

Lemma explicit_groups_block (w : World) (g : string) (gid : Z)
  (pw : option passwd) (env : gmap string string) (t : list event)
  (r : result (Z * option passwd)) (n : Z) (l : list slot) :
  g <> EmptyString ->
  main_explicit_groups w (Some g) gid pw env = (t, r) ->
  In (Setgroups n l) t ->
  n = Z.of_nat (length l) /\
  exists x, head l = Some (Some x) /\
    forall gid' pw' env', r = Next (gid', pw') env' -> gid' = x.
Proof.
  intros Hne Hrun Hin.
  destruct g as [|c0 g0]; [congruence|].
  unfold main_explicit_groups in Hrun. cbv beta iota zeta in Hrun.
  remember (String c0 g0) as g eqn:Hgdef. clear Hgdef c0 g0.
  assert (Hquiet : forall t', List.filter noisy t' = [] -> ~ In (Setgroups n l) t').
  { intros t' Hq Hin'. apply in_noisy in Hin'; [|reflexivity].
    rewrite Hq in Hin'. destruct Hin'. }
  destruct (Nat.eqb_spec (str_occurrences g "," + 1) 1) as [Hone | Hmany].
  - destruct (get_gid_run w g env) as (tg & Eg & Hq).
    destruct (gid_of_token w g) as [x|].
    + rewrite (bind_next _ _ _ _ _ _ Eg) in Hrun.
      unfold setgroups, bind, emit, ret in Hrun. simpl in Hrun.
      assert (Hin' : In (Setgroups n l) (tg ++ [Setgroups 1 [Some x]])).
      { destruct (w_setgroups_ok w 1 [Some x]); injection Hrun as <- _;
          [exact Hin|].
        apply in_app_or in Hin as [Hin | [Hin | [Hin | []]]];
          apply in_or_app; simpl; auto. discriminate. }
      apply in_app_or in Hin' as [Hin' | [[= <- <-] | []]];
        [destruct (Hquiet _ Hq Hin')|].
      split; [reflexivity|]. exists x. split; [reflexivity|].
      intros gid' pw' env' ->.
      destruct (w_setgroups_ok w 1 [Some x]); injection Hrun as _ E;
        [congruence | discriminate].
    + rewrite (bind_stop _ _ _ _ _ Eg) in Hrun. injection Hrun as <- _.
      destruct (Hquiet _ Hq Hin).
  - destruct (strtok "," g) as [[token save]|].
    2:{ injection Hrun as <- _. destruct Hin. }
    destruct (get_gid_run w token env) as (tg & Eg & Hq).
    destruct (gid_of_token w token) as [x|] eqn:Hx.
    2:{ rewrite (bind_stop _ _ _ _ _ Eg) in Hrun. injection Hrun as <- _.
        destruct (Hquiet _ Hq Hin). }
    rewrite (bind_next _ _ _ _ _ _ Eg) in Hrun.
    set (cnt := (str_occurrences g "," + 1)%nat) in *.
    set (l0 := <[O := Some x]> (replicate cnt None) : list slot) in *.
    destruct (main_fill_gidlist w (tokens "," save) O l0 env) as [tf rf] eqn:Ef.
    assert (Hqf : List.filter noisy tf = []).
    { destruct (fill_gidlist_run w (token :: tokens "," save) _ _ _ _ _ _ Ef eq_refl)
        as [H _]; [|exact H].
      intros j y Hj. subst l0.
      apply list_lookup_insert_Some in Hj as [(<- & [= <-] & _) | (_ & Hj)].
      - exists token. auto.
      - apply lookup_replicate in Hj as [Hj _]. discriminate. }
    destruct rf as [l' env'|o].
    + destruct (fill_gidlist_keeps _ _ _ _ _ _ _ _ Ef) as [Hlen Hkeep].
      rewrite (bind_next _ _ _ _ _ _ Ef) in Hrun.
      unfold setgroups, bind, emit, ret in Hrun. simpl in Hrun.
      assert (Hin' : In (Setgroups n l) (tg ++ tf ++ [Setgroups (Z.of_nat cnt) l'])).
      { destruct (w_setgroups_ok w (Z.of_nat cnt) l'); injection Hrun as <- _;
          [exact Hin|].
        apply in_app_or in Hin as [Hin | Hin]; [apply in_or_app; auto|].
        apply in_app_or in Hin as [Hin | [Hin | [Hin | []]]];
          apply in_or_app; right; apply in_or_app; simpl; auto. discriminate. }
      apply in_app_or in Hin' as [Hin' | Hin']; [destruct (Hquiet _ Hq Hin')|].
      apply in_app_or in Hin' as [Hin' | [[= <- <-] | []]];
        [destruct (Hquiet _ Hqf Hin')|].
      assert (Hl0 : length l0 = cnt)
        by (subst l0; rewrite length_insert, length_replicate; reflexivity).
      split; [rewrite Hlen, Hl0; reflexivity|].
      exists x. split.
      * rewrite head_lookup, Hkeep by lia. subst l0.
        apply list_lookup_insert_eq. rewrite length_replicate. unfold cnt. lia.
      * intros gid' pw' env'' ->.
        destruct (w_setgroups_ok w (Z.of_nat cnt) l'); injection Hrun as _ E;
          [congruence | discriminate].
    + rewrite (bind_stop _ _ _ _ _ Ef) in Hrun. injection Hrun as <- _.
      apply in_app_or in Hin as [Hin | Hin];
        [destruct (Hquiet _ Hq Hin) | destruct (Hquiet _ Hqf Hin)].
Qed.

(** X19: with a group part, the size given to [setgroups] is the number
    of slots of the array it is given, so that the kernel is never told
    to read past the block; and the first slot holds a gid, the very one
    that [setgid] gets afterwards. *)
Theorem X19_setgroups_block (w : World) (fuel : nat)
  (argv0 spec cmd : string) (rest : list string) (user g : string)
  (n : Z) (l : list slot) :
  split_spec spec = (user, Some g) -> g <> EmptyString ->
  In (Setgroups n l) (fst (run w fuel argv0 (spec :: cmd :: rest))) ->
  n = Z.of_nat (length l) /\
  exists x, head l = Some (Some x) /\
    forall gid, In (Setgid gid) (fst (run w fuel argv0 (spec :: cmd :: rest))) ->
                gid = x.
Proof.
  intros Hsplit Hg. rewrite run_unfold, Hsplit.
  destruct (main_resolve_user w user (w_getuid w) (w_getgid w) (w_environ w))
    as [t0 r0] eqn:E0.
  destruct (resolve_user_run _ _ _ _ _ _ _ E0) as [Hq0 Hr0].
  assert (Hquiet : forall (t : list event) (e : event),
            List.filter noisy t = [] -> noisy e = true -> ~ In e t).
  { intros t e Hq Hn Hin. apply in_noisy in Hin; [|exact Hn].
    rewrite Hq in Hin. destruct Hin. }
  destruct Hr0 as [-> | ([[uid gid] pw] & ->)].
  { cbn [fst]. intros [? | [? | Hin]]; try discriminate.
    destruct (Hquiet _ (Setgroups n l) Hq0 eq_refl Hin). }
  cbv beta iota zeta.
  set (env1 := <["HOME" := home_of pw]> (w_environ w)).
  destruct (main_explicit_groups w (Some g) gid pw env1) as [t1 r1] eqn:E1.
  pose proof (explicit_groups_run w g gid pw env1 t1 r1 Hg E1) as Hshape.
  pose proof (fun n l => explicit_groups_block w g gid pw env1 t1 r1 n l Hg E1)
    as Hblock.
  assert (Ht1 : forall gid', ~ In (Setgid gid') t1).
  { intros gid' Hin. apply in_noisy in Hin; [|reflexivity].
    destruct Hshape as [[Hq _] | (l' & Hq & _)]; rewrite Hq in Hin.
    - destruct Hin.
    - destruct Hin as [? | []]. discriminate. }
  assert (Hpre : forall (e : event) (t : list event),
            noisy e = true -> e <> Setenv "HOME" (home_of pw) ->
            In e (Getuid :: Getgid :: t0 ++ Setenv "HOME" (home_of pw) :: t) ->
            In e t).
  { intros e t Hn Hne [<- | [<- | Hin]]; try discriminate.
    apply in_app_or in Hin as [Hin | [Hin | Hin]];
      [destruct (Hquiet _ _ Hq0 Hn Hin) | congruence | exact Hin]. }
  destruct r1 as [[gid' pw'] env2|o].
  - assert (pw' = None /\ env2 = env1) as [-> ->].
    { destruct Hshape as [[_ [? | ?]] | (? & _ & _ & [? | (? & ? & _ & _ & [= _ -> ->])])];
        try discriminate. auto. }
    cbn [main_grouplist]. change (ret tt env1) with (@nil event, Next tt env1).
    cbv beta iota.
    pose proof (transition_verdict w uid gid' cmd (cmd :: rest) env1) as [Ht3 _].
    destruct (main_transition w uid gid' cmd (cmd :: rest) env1) as [t3 r3].
    cbn [fst] in Ht3.
    assert (Htr : fst (match r3 with
                       | Next _ _ =>
                           (Getuid :: Getgid :: t0 ++ Setenv "HOME" (home_of pw)
                              :: t1 ++ [] ++ t3, Exited 1)
                       | Stop o =>
                           (Getuid :: Getgid :: t0 ++ Setenv "HOME" (home_of pw)
                              :: t1 ++ [] ++ t3, o)
                       end)
                  = Getuid :: Getgid :: t0 ++ Setenv "HOME" (home_of pw) :: t1 ++ t3)
      by (destruct r3 as [[] ?|?]; reflexivity).
    rewrite Htr. clear Htr.
    intros Hin. apply Hpre in Hin; [|reflexivity | discriminate].
    apply in_app_or in Hin as [Hin | Hin].
    + destruct (Hblock n l Hin) as (Hn & x & Hx & Hgid).
      split; [exact Hn|]. exists x. split; [exact Hx|].
      intros gid0 Hin0. apply Hpre in Hin0; [|reflexivity | discriminate].
      apply in_app_or in Hin0 as [Hin0 | Hin0]; [destruct (Ht1 _ Hin0)|].
      apply in_noisy in Hin0; [|reflexivity]. rewrite Ht3 in Hin0.
      destruct (transition_trace_in _ _ _ _ _ _ Hin0) as [[= ->] | [[? _] | [? _]]];
        try discriminate.
      apply (Hgid gid' None env1 eq_refl).
    + apply in_noisy in Hin; [|reflexivity]. rewrite Ht3 in Hin.
      destruct (transition_trace_in _ _ _ _ _ _ Hin) as [? | [[? _] | [? _]]];
        discriminate.
  - cbn [fst]. intros Hin. apply Hpre in Hin; [|reflexivity | discriminate].
    destruct (Hblock n l Hin) as (Hn & x & Hx & _).
    split; [exact Hn|]. exists x. split; [exact Hx|].
    intros gid0 Hin0. apply Hpre in Hin0; [|reflexivity | discriminate].
    destruct (Ht1 _ Hin0).
Qed.

Lemma X19_setgroups_block_witness :
  3 = Z.of_nat (length [Some 100; Some 200; @None Z]) /\
  exists x, head [Some 100; Some 200; @None Z] = Some (Some x) /\
    forall gid,
      In (Setgid gid) (fst (run w_demo 2 "su-exec" ["1234:100,,200"; "id"])) ->
      gid = x.
Proof.
  apply (X19_setgroups_block w_demo 2 "su-exec" "1234:100,,200" "id" []
           "1234" "100,,200" 3 [Some 100; Some 200; None]).
  - reflexivity.
  - discriminate.
  - vm_compute. tauto.
Defined.

(** ** An empty group part *)

(** X20: a colon with nothing after it is no group part.  The run for
    "user:" is the run for "user": same calls, same end. *)
Theorem X20_trailing_colon (w : World) (fuel : nat) (argv0 user cmd : string)
  (rest : list string) :
  strchr user ":" = None ->
  run w fuel argv0 ((user +:+ ":") :: cmd :: rest)
    = run w fuel argv0 (user :: cmd :: rest).
Proof.
  intros Hcolon.
  pose proof (split_spec_colon user EmptyString Hcolon) as Hsplit.
  change (":" +:+ EmptyString)%string with ":"%string in Hsplit.
  rewrite !run_unfold, Hsplit, (split_spec_plain user Hcolon).
  destruct (main_resolve_user w user (w_getuid w) (w_getgid w) (w_environ w))
    as [t0 [[[uid gid] pw] env0|o]]; reflexivity.
Qed.

Lemma X20_trailing_colon_witness :
  run w_demo 2 "su-exec" [("root" +:+ ":")%string; "id"]
    = run w_demo 2 "su-exec" ["root"; "id"].
Proof.
  apply (X20_trailing_colon w_demo 2 "su-exec" "root" "id" []).
  reflexivity.
Defined.

(** ** A refused allocation *)
















